(** * Sharded quantized embedding collection: output reconstruction and
      orchestration (torchrec/distributed/quant_embedding.py)

    Tensors are modelled by their contents: a one-dimensional tensor is a
    list, a two-dimensional tensor of embedding rows is a list of rows.
    Device placement and streams are not part of the model.  Python
    exceptions are modelled by the [result] type. *)

From stdpp Require Import gmap strings list fin_maps.

Open Scope Z_scope.
Open Scope nat_scope.

(** ** Exceptions *)

Inductive exn : Type :=
  | ValueError
  | AssertionError
  | IndexError
  | RuntimeError
  | InvariantViolation.

Inductive result (A : Type) : Type :=
  | Ok (a : A)
  | Raise (e : exn).
Arguments Ok {A} a.
Arguments Raise {A} e.

#[global] Instance result_ret : MRet result := fun A a => Ok a.
#[global] Instance result_bind : MBind result := fun A B f m =>
  match m with
  | Ok a => f a
  | Raise e => Raise e
  end.
#[global] Instance result_fmap : FMap result := fun A B f m =>
  match m with
  | Ok a => Ok (f a)
  | Raise e => Raise e
  end.

Definition is_ok {A} (r : result A) : bool :=
  match r with Ok _ => true | Raise _ => false end.

(** [for a in l: s = body(s, a)], stopping at the first exception. *)
Fixpoint for_each {S A : Type} (body : S → A → result S) (l : list A) (s : S)
  : result S :=
  match l with
  | [] => Ok s
  | a :: l' => s' ← body s a; for_each body l' s'
  end.

(** [enumerate(l)] *)
Definition enumerate {A : Type} (l : list A) : list (nat * A) :=
  zip (seq 0 (length l)) l.

(** [l[i]] for a tuple or list and a non-negative [i]. *)
Definition getitem {A : Type} (l : list A) (i : nat) : result A :=
  match l !! i with
  | Some a => Ok a
  | None => Raise IndexError
  end.

(** [l[i]] for a Python [int]: a negative [i] counts from the end. *)
Definition py_getitem {A : Type} (l : list A) (i : Z) : result A :=
  if (0 <=? i)%Z then getitem l (Z.to_nat i)
  else if (- Z.of_nat (length l) <=? i)%Z
       then getitem l (Z.to_nat (Z.of_nat (length l) + i))
       else Raise IndexError.

(** ** The torch operations the module calls *)

(** The segments of [t] of the given sizes, in order. *)
Fixpoint segments {A : Type} (t : list A) (sizes : list nat) : list (list A) :=
  match sizes with
  | [] => []
  | n :: sizes' => take n t :: segments (drop n t) sizes'
  end.

(** [torch.split(t, sizes, dim=0)]: the sizes must add up to the size of
    [t] along dimension 0. *)
Definition torch_split {A : Type} (t : list A) (sizes : list nat)
  : result (list (list A)) :=
  if decide (sum_list sizes = length t) then Ok (segments t sizes)
  else Raise RuntimeError.

(** [torch.concat(ts, dim=0)]: refuses an empty list of tensors. *)
Definition torch_concat {A : Type} (ts : list (list A)) : result (list A) :=
  match ts with
  | [] => Raise RuntimeError
  | _ => Ok (concat ts)
  end.

(** [t.index_select(0, index)]: every index must lie in [0, len(t)). *)
Fixpoint index_select {A : Type} (t : list A) (index : list Z)
  : result (list A) :=
  match index with
  | [] => Ok []
  | i :: index' =>
      if (0 <=? i)%Z then
        match t !! Z.to_nat i with
        | Some a => rest ← index_select t index'; Ok (a :: rest)
        | None => Raise IndexError
        end
      else Raise IndexError
  end.

(** Row [k] of a flat tensor seen as rows of [stride] entries. *)
Definition row {A : Type} (stride : nat) (t : list A) (k : nat) : list A :=
  take stride (drop (k * stride) t).

(** [torch.unbind(t.view(-1, stride), dim=0)]: [view] refuses a zero
    [stride] and a size that [stride] does not divide. *)
Definition view_rows {A : Type} (t : list A) (stride : nat)
  : result (list (list A)) :=
  if decide (stride = 0) then Raise RuntimeError
  else if decide (length t `mod` stride = 0)
       then Ok (row stride t <$> seq 0 (length t `div` stride))
       else Raise RuntimeError.

(** ** Data model *)

Section data.
Context {E : Type}.

(** Modelled from the spec: [KeyedJaggedTensor] (torchrec/sparse, not
    part of the excerpt): ordered feature keys, a flat value sequence,
    a flat length per (key, example) sequence laid out key by key, an
    optional weight sequence parallel to the values, and the number of
    examples per batch. *)
Record KeyedJaggedTensor : Type := mkKJT {
  keys : list string;
  values : list Z;
  weights : option (list E);
  lengths : list nat;
  stride : nat;
}.

(** [JaggedTensor]: the per-feature result; [jt_values] holds embedding
    rows, [jt_weights] the looked-up ids when they were asked for. *)
Record JaggedTensor : Type := mkJT {
  jt_lengths : list nat;
  jt_values : list (list E);
  jt_weights : option (list Z);
}.

(** The per-example lengths of key number [k]. *)
Definition key_lengths (f : KeyedJaggedTensor) (k : nat) : list nat :=
  row (stride f) (lengths f) k.

(** Modelled from the spec: [length_per_key()], for each key the total
    number of values summed over all examples. *)
Definition length_per_key (f : KeyedJaggedTensor) : list nat :=
  (λ k, sum_list (key_lengths f k)) <$> seq 0 (length (keys f)).

(** Number of values that precede those of key number [k]. *)
Definition offset_of_key (f : KeyedJaggedTensor) (k : nat) : nat :=
  sum_list (take (k * stride f) (lengths f)).

Definition key_segment {A : Type} (f : KeyedJaggedTensor) (buf : list A)
    (k : nat) : list A :=
  take (sum_list (key_lengths f k)) (drop (offset_of_key f k) buf).

(** The collection restricted to the keys numbered [ks], in that order. *)
Definition select_keys (f : KeyedJaggedTensor) (ks : list nat)
  : KeyedJaggedTensor :=
  {| keys := omap (λ k, keys f !! k) ks;
     values := concat (key_segment f (values f) <$> ks);
     weights := (λ w, concat (key_segment f w <$> ks)) <$> weights f;
     lengths := concat (key_lengths f <$> ks);
     stride := stride f |}.

(** Length sums agree with the value buffer (and the weight buffer). *)
Definition kjt_consistent (f : KeyedJaggedTensor) : bool :=
  bool_decide (sum_list (lengths f) = length (values f)) &&
  match weights f with
  | Some w => bool_decide (length w = length (values f))
  | None => true
  end.

(** Modelled from the spec: [permute(new_order)] reorders the keys with
    their values and lengths; it fails with an invariant violation when
    a requested key does not exist or the length sums disagree with the
    value buffer. *)
Definition kjt_permute (f : KeyedJaggedTensor) (order : list nat)
  : result KeyedJaggedTensor :=
  if negb (kjt_consistent f) then Raise InvariantViolation
  else if bool_decide (Forall (λ k, k < length (keys f)) order)
       then Ok (select_keys f order)
       else Raise InvariantViolation.

Fixpoint split_from (f : KeyedJaggedTensor) (start : nat)
    (group_sizes : list nat) : result (list KeyedJaggedTensor) :=
  match group_sizes with
  | [] => Ok []
  | n :: rest =>
      if decide (start + n ≤ length (keys f)) then
        tl ← split_from f (start + n) rest;
        Ok (select_keys f (seq start n) :: tl)
      else Raise InvariantViolation
  end.

(** Modelled from the spec: [split(group_sizes)] cuts the ordered keys
    into contiguous sub-collections, each with the values and lengths of
    its keys; same failures as [kjt_permute]. *)
Definition kjt_split (f : KeyedJaggedTensor) (group_sizes : list nat)
  : result (list KeyedJaggedTensor) :=
  if negb (kjt_consistent f) then Raise InvariantViolation
  else split_from f 0 group_sizes.

(** ** Output reconstruction *)

(** One pass of [for i, key in enumerate(keys): ret[key] = JaggedTensor(...)]. *)
Definition assign_keys (mk : nat → result JaggedTensor)
    (ks : list string) (ret : gmap string JaggedTensor)
  : result (gmap string JaggedTensor) :=
  for_each (λ ret '(i, key), jt ← mk i; Ok (<[key := jt]> ret))
           (enumerate ks) ret.

(** The body of the loop over destinations of
    [_construct_jagged_tensors_tw]. *)
Definition tw_destination
    (embeddings : list (list (list E)))
    (features : list KeyedJaggedTensor)
    (need_indices : bool)
    (ret : gmap string JaggedTensor) (i : nat)
  : result (gmap string JaggedTensor) :=
  embeddings_i ← getitem embeddings i;
  features_i ← getitem features i;
  lengths_tuple ← view_rows (lengths features_i) (stride features_i);
  let values := values features_i in
  let length_per_key := length_per_key features_i in
  embeddings_list ← torch_split embeddings_i length_per_key;
  if need_indices then
    values_list ← torch_split values length_per_key;
    assign_keys (λ i,
        l ← getitem lengths_tuple i;
        v ← getitem embeddings_list i;
        w ← getitem values_list i;
        Ok {| jt_lengths := l; jt_values := v; jt_weights := Some w |})
      (keys features_i) ret
  else
    assign_keys (λ i,
        l ← getitem lengths_tuple i;
        v ← getitem embeddings_list i;
        Ok {| jt_lengths := l; jt_values := v; jt_weights := None |})
      (keys features_i) ret.

Definition _construct_jagged_tensors_tw
    (embeddings : list (list (list E)))
    (features : list KeyedJaggedTensor)
    (need_indices : bool) : result (gmap string JaggedTensor) :=
  for_each (tw_destination embeddings features need_indices)
           (seq 0 (length embeddings)) ∅.

Definition _construct_jagged_tensors_rw
    (embeddings : list (list (list E)))
    (features_before_input_dist : KeyedJaggedTensor)
    (need_indices : bool)
    (unbucketize_tensor : list Z) : result (gmap string JaggedTensor) :=
  all_embs ← torch_concat embeddings;
  unbucketized_embs ← index_select all_embs unbucketize_tensor;
  embs_split_per_key ←
    torch_split unbucketized_embs (length_per_key features_before_input_dist);
  lengths_list ← view_rows (lengths features_before_input_dist)
                           (stride features_before_input_dist);
  values_list ←
    (if need_indices
     then torch_split (values features_before_input_dist)
                      (length_per_key features_before_input_dist)
     else Ok []);
  assign_keys (λ i,
      v ← getitem embs_split_per_key i;
      l ← getitem lengths_list i;
      w ← (if need_indices then Some <$> getitem values_list i else Ok None);
      Ok {| jt_values := v; jt_lengths := l; jt_weights := w |})
    (keys features_before_input_dist) ∅.

Definition _construct_jagged_tensors
    (embeddings : list (list (list E)))
    (features : list KeyedJaggedTensor)
    (embedding_names_per_rank : list (list string))
    (features_before_input_dist : KeyedJaggedTensor)
    (need_indices : bool)
    (unbucketize_tensor : option (list Z))
    (features_to_permute_indices : gmap string (list Z))
  : result (gmap string JaggedTensor) :=
  match unbucketize_tensor with
  | Some t =>
      _construct_jagged_tensors_rw embeddings features_before_input_dist
                                   need_indices t
  | None => _construct_jagged_tensors_tw embeddings features need_indices
  end.

(** The body of the loop of [output_jt_dict]; [zip] stops at the
    shortest of its five lists. *)
Fixpoint output_jt_loop
    (emb_per_sharding : list (list (list (list E))))
    (features_per_sharding : list (list KeyedJaggedTensor))
    (embedding_names_per_rank_per_sharding : list (list (list string)))
    (unbucketize_tensor_idxs_per_sharding : list Z)
    (features_before_input_dist_per_sharding : list KeyedJaggedTensor)
    (need_indices : bool)
    (features_to_permute_indices : gmap string (list Z))
    (unbucketize_tensors : list (list Z))
    (jt_dict : gmap string JaggedTensor)
  : result (gmap string JaggedTensor) :=
  match emb_per_sharding, features_per_sharding,
        embedding_names_per_rank_per_sharding,
        unbucketize_tensor_idxs_per_sharding,
        features_before_input_dist_per_sharding with
  | emb_sharding :: embs, features_sharding :: feats,
    embedding_names_per_rank :: names, unbucketize_tensor_idx :: idxs,
    features_before_input_dist :: fbids =>
      unbucketize_tensor ←
        (if decide (unbucketize_tensor_idx ≠ (-1)%Z)
         then Some <$> py_getitem unbucketize_tensors unbucketize_tensor_idx
         else Ok None);
      d ← _construct_jagged_tensors emb_sharding features_sharding
             embedding_names_per_rank features_before_input_dist
             need_indices unbucketize_tensor features_to_permute_indices;
      (* jt_dict.update(d) *)
      output_jt_loop embs feats names idxs fbids need_indices
        features_to_permute_indices unbucketize_tensors (d ∪ jt_dict)
  | _, _, _, _, _ => Ok jt_dict
  end.

Definition output_jt_dict
    (emb_per_sharding : list (list (list (list E))))
    (features_per_sharding : list (list KeyedJaggedTensor))
    (embedding_names_per_rank_per_sharding : list (list (list string)))
    (need_indices : bool)
    (features_before_input_dist_per_sharding : list KeyedJaggedTensor)
    (features_to_permute_indices : gmap string (list Z))
    (unbucketize_tensors : list (list Z))
    (unbucketize_tensor_idxs_per_sharding : list Z)
  : result (gmap string JaggedTensor) :=
  output_jt_loop emb_per_sharding features_per_sharding
    embedding_names_per_rank_per_sharding
    unbucketize_tensor_idxs_per_sharding
    features_before_input_dist_per_sharding
    need_indices features_to_permute_indices unbucketize_tensors ∅.

(** [InferSequenceShardingContext]: the routing metadata one strategy
    records during input distribution. *)
Record InferSequenceShardingContext : Type := mkShardingContext {
  features : list KeyedJaggedTensor;
  features_before_input_dist : KeyedJaggedTensor;
  unbucketize_permute_tensor : option (list Z);
}.

Record EmbeddingCollectionContext : Type := mkContext {
  sharding_contexts : list InferSequenceShardingContext;
}.

End data.

Arguments KeyedJaggedTensor : clear implicits.
Arguments JaggedTensor : clear implicits.
Arguments InferSequenceShardingContext : clear implicits.
Arguments EmbeddingCollectionContext : clear implicits.

(** ** Sharding types, plan and strategies *)

(** Modelled from the spec: the [ShardingType] enumeration of the plan
    input (torchrec/distributed/types.py, not part of the excerpt) and the
    string each member stands for. *)
Inductive ShardingType : Type :=
  | TABLE_WISE
  | ROW_WISE
  | COLUMN_WISE
  | TABLE_ROW_WISE
  | DATA_PARALLEL.

Definition value (t : ShardingType) : string :=
  match t with
  | TABLE_WISE => "table_wise"
  | ROW_WISE => "row_wise"
  | COLUMN_WISE => "column_wise"
  | TABLE_ROW_WISE => "table_row_wise"
  | DATA_PARALLEL => "data_parallel"
  end.

(** [ParameterSharding]: the plan's entry for one table. *)
Record ParameterSharding : Type := mkParameterSharding {
  sharding_type : string;
  ranks : list nat;
}.

Record EmbeddingConfig : Type := mkEmbeddingConfig {
  name : string;
  config_feature_names : list string;
  config_embedding_dim : nat;
  num_embeddings : nat;
}.

(** [QuantEmbeddingCollection]: the unsharded module, as far as the
    constructor reads it. *)
Record QuantEmbeddingCollection : Type := mkQuantEmbeddingCollection {
  embedding_configs : list EmbeddingConfig;
  embedding_dim : nat;
  need_indices : bool;
}.

Record EmbeddingShardingInfo : Type := mkEmbeddingShardingInfo {
  info_table : string;
  param_sharding : ParameterSharding;
}.

(** The two strategies [create_infer_embedding_sharding] can build. *)
Inductive EmbeddingSharding : Type :=
  | InferTwSequenceEmbeddingSharding (sharding_infos : list EmbeddingShardingInfo)
  | InferRwSequenceEmbeddingSharding (sharding_infos : list EmbeddingShardingInfo).

Definition create_infer_embedding_sharding (sharding_type : string)
    (sharding_infos : list EmbeddingShardingInfo) : result EmbeddingSharding :=
  if decide (sharding_type = value TABLE_WISE)
  then Ok (InferTwSequenceEmbeddingSharding sharding_infos)
  else if decide (sharding_type = value ROW_WISE)
  then Ok (InferRwSequenceEmbeddingSharding sharding_infos)
  else Raise ValueError.

(** [d.setdefault(k, []).append(x)] on a dictionary kept in insertion order. *)
Fixpoint dict_append {A : Type} (d : list (string * list A)) (k : string) (x : A)
  : list (string * list A) :=
  match d with
  | [] => [(k, [x])]
  | (k', xs) :: d' =>
      if decide (k' = k) then (k', xs ++ [x]) :: d'
      else (k', xs) :: dict_append d' k x
  end.

(** Modelled from the spec: [create_sharding_infos_by_sharding]
    (torchrec/distributed/embedding.py, not part of the excerpt) groups the
    tables of the parameter-sharding assignment by their sharding type, one
    group per sharding type that appears in the assignment. *)
Definition create_sharding_infos_by_sharding
    (table_name_to_parameter_sharding : list (string * ParameterSharding))
  : list (string * list EmbeddingShardingInfo) :=
  foldl (λ d '(table, ps),
           dict_append d (sharding_type ps)
             {| info_table := table; param_sharding := ps |})
        [] table_name_to_parameter_sharding.

(** Modelled from the spec: the input distributor each strategy creates
    ([create_input_dist] of the two sharding classes, not part of the
    excerpt); only the row-wise one is an [InferRwSparseFeaturesDist] and
    carries an unbucketize permutation. *)
Inductive InputDist : Type :=
  | InferTwSparseFeaturesDist (sharding_infos : list EmbeddingShardingInfo)
  | InferRwSparseFeaturesDist (sharding_infos : list EmbeddingShardingInfo).

Definition create_input_dist (sharding : EmbeddingSharding) : InputDist :=
  match sharding with
  | InferTwSequenceEmbeddingSharding infos => InferTwSparseFeaturesDist infos
  | InferRwSequenceEmbeddingSharding infos => InferRwSparseFeaturesDist infos
  end.

(** [isinstance(input_dist, InferRwSparseFeaturesDist)] *)
Definition is_rw_dist (d : InputDist) : bool :=
  match d with
  | InferRwSparseFeaturesDist _ => true
  | InferTwSparseFeaturesDist _ => false
  end.

(** The collaborators the module only calls: what a strategy reports about
    its features, and the forward passes of the distributors and lookups.
    [rw_input_forward] returns, next to the distributed features, the
    [unbucketize_permute_tensor] attribute that the row-wise distributor
    holds once its forward pass has run. *)
Class Backend (E : Type) : Type := {
  FusedParams : Type;
  is_fused_param_quant_state_dict_split_scale_bias : option FusedParams → bool;
  feature_names : EmbeddingSharding → list string;
  embedding_names : EmbeddingSharding → list string;
  embedding_names_per_rank : EmbeddingSharding → list (list string);
  tw_input_forward :
    list EmbeddingShardingInfo → KeyedJaggedTensor E →
    result (list (KeyedJaggedTensor E));
  rw_input_forward :
    list EmbeddingShardingInfo → KeyedJaggedTensor E →
    result (list (KeyedJaggedTensor E) * list Z);
  lookup_forward :
    EmbeddingSharding → option FusedParams → list (KeyedJaggedTensor E) →
    result (list (list E));
  output_dist_forward :
    EmbeddingSharding → list (list (list E)) →
    InferSequenceShardingContext E → result (list (list (list E)));
}.

(** ** State and exceptions *)

Definition Prog (S A : Type) : Type := S → S * result A.

#[global] Instance prog_ret {S} : MRet (Prog S) := λ A a s, (s, Ok a).
#[global] Instance prog_bind {S} : MBind (Prog S) := λ A B f m s,
  match m s with
  | (s', Ok a) => f a s'
  | (s', Raise e) => (s', Raise e)
  end.

Definition get {S} : Prog S S := λ s, (s, Ok s).
Definition modify {S} (f : S → S) : Prog S unit := λ s, (f s, Ok tt).
Definition lift {S A} (r : result A) : Prog S A := λ s, (s, r).

(** Run a method of [self] where [self] and a context are both in scope. *)
Definition on_self {S C A} (m : Prog S A) : Prog (S * C) A := λ '(s, c),
  let '(s', r) := m s in ((s', c), r).
Definition on_ctx {S C A} (m : Prog C A) : Prog (S * C) A := λ '(s, c),
  let '(c', r) := m c in ((s, c'), r).

(** [for a in l: acc = body(acc, a)] with effects. *)
Fixpoint foldP {S A B : Type} (body : B → A → Prog S B) (l : list A) (acc : B)
  : Prog S B :=
  match l with
  | [] => mret acc
  | a :: l' => acc' ← body acc a; foldP body l' acc'
  end.

(** [l.index(x)] *)
Definition py_index (l : list string) (x : string) : result nat :=
  match list_find (λ y, y = x) l with
  | Some (i, _) => Ok i
  | None => Raise ValueError
  end.

(** ** The sharded module *)

Section module.
Context {E : Type} `{!Backend E}.

Record Lookup : Type := mkLookup {
  lookup_sharding : EmbeddingSharding;
  lookup_fused_params : option FusedParams;
}.

Record OutputDist : Type := mkOutputDist {
  output_dist_sharding : EmbeddingSharding;
}.

Definition create_lookup (fused_params : option FusedParams)
    (sharding : EmbeddingSharding) : Lookup :=
  {| lookup_sharding := sharding; lookup_fused_params := fused_params |}.

Definition create_output_dist (sharding : EmbeddingSharding) : OutputDist :=
  {| output_dist_sharding := sharding |}.

(** [input_dist.forward(features)], with the unbucketize permutation the
    distributor holds afterwards when it is the row-wise one. *)
Definition input_dist_forward (d : InputDist) (f : KeyedJaggedTensor E)
  : result (list (KeyedJaggedTensor E) * option (list Z)) :=
  match d with
  | InferTwSparseFeaturesDist infos =>
      r ← tw_input_forward infos f; Ok (r, None)
  | InferRwSparseFeaturesDist infos =>
      '(r, u) ← rw_input_forward infos f; Ok (r, Some u)
  end.

(** The attributes of [ShardedQuantEmbeddingCollection] that routing and
    reconstruction read or write.  The registered weight buffers and the
    optional list of registered kernels are not part of the model. *)
Record ShardedQuantEmbeddingCollection : Type := mkSharded {
  _embedding_configs : list EmbeddingConfig;
  _sharding_type_to_sharding : list (string * EmbeddingSharding);
  _embedding_dim : nat;
  _embedding_names_per_sharding : list (list string);
  _embedding_names_per_rank_per_sharding : list (list (list string));
  _features_to_permute_indices : gmap string (list Z);
  _input_dists : list InputDist;
  _lookups : list Lookup;
  _output_dists : list OutputDist;
  _feature_splits : list nat;
  _features_order : list nat;
  _features_order_tensor : list nat;
  _has_uninitialized_input_dist : bool;
  _has_uninitialized_output_dist : bool;
  _need_indices : bool;
  _fused_params : option FusedParams;
}.

Definition set_input_dists (v : list InputDist)
    (s : ShardedQuantEmbeddingCollection) :=
  mkSharded (_embedding_configs s) (_sharding_type_to_sharding s)
    (_embedding_dim s) (_embedding_names_per_sharding s)
    (_embedding_names_per_rank_per_sharding s)
    (_features_to_permute_indices s) v (_lookups s) (_output_dists s)
    (_feature_splits s) (_features_order s) (_features_order_tensor s)
    (_has_uninitialized_input_dist s) (_has_uninitialized_output_dist s)
    (_need_indices s) (_fused_params s).

Definition set_output_dists (v : list OutputDist)
    (s : ShardedQuantEmbeddingCollection) :=
  mkSharded (_embedding_configs s) (_sharding_type_to_sharding s)
    (_embedding_dim s) (_embedding_names_per_sharding s)
    (_embedding_names_per_rank_per_sharding s)
    (_features_to_permute_indices s) (_input_dists s) (_lookups s) v
    (_feature_splits s) (_features_order s) (_features_order_tensor s)
    (_has_uninitialized_input_dist s) (_has_uninitialized_output_dist s)
    (_need_indices s) (_fused_params s).

Definition set_feature_splits (v : list nat)
    (s : ShardedQuantEmbeddingCollection) :=
  mkSharded (_embedding_configs s) (_sharding_type_to_sharding s)
    (_embedding_dim s) (_embedding_names_per_sharding s)
    (_embedding_names_per_rank_per_sharding s)
    (_features_to_permute_indices s) (_input_dists s) (_lookups s)
    (_output_dists s) v (_features_order s) (_features_order_tensor s)
    (_has_uninitialized_input_dist s) (_has_uninitialized_output_dist s)
    (_need_indices s) (_fused_params s).

Definition set_features_order (v : list nat)
    (s : ShardedQuantEmbeddingCollection) :=
  mkSharded (_embedding_configs s) (_sharding_type_to_sharding s)
    (_embedding_dim s) (_embedding_names_per_sharding s)
    (_embedding_names_per_rank_per_sharding s)
    (_features_to_permute_indices s) (_input_dists s) (_lookups s)
    (_output_dists s) (_feature_splits s) v (_features_order_tensor s)
    (_has_uninitialized_input_dist s) (_has_uninitialized_output_dist s)
    (_need_indices s) (_fused_params s).

Definition set_features_order_tensor (v : list nat)
    (s : ShardedQuantEmbeddingCollection) :=
  mkSharded (_embedding_configs s) (_sharding_type_to_sharding s)
    (_embedding_dim s) (_embedding_names_per_sharding s)
    (_embedding_names_per_rank_per_sharding s)
    (_features_to_permute_indices s) (_input_dists s) (_lookups s)
    (_output_dists s) (_feature_splits s) (_features_order s) v
    (_has_uninitialized_input_dist s) (_has_uninitialized_output_dist s)
    (_need_indices s) (_fused_params s).

Definition set_has_uninitialized_input_dist (v : bool)
    (s : ShardedQuantEmbeddingCollection) :=
  mkSharded (_embedding_configs s) (_sharding_type_to_sharding s)
    (_embedding_dim s) (_embedding_names_per_sharding s)
    (_embedding_names_per_rank_per_sharding s)
    (_features_to_permute_indices s) (_input_dists s) (_lookups s)
    (_output_dists s) (_feature_splits s) (_features_order s)
    (_features_order_tensor s) v (_has_uninitialized_output_dist s)
    (_need_indices s) (_fused_params s).

Definition set_has_uninitialized_output_dist (v : bool)
    (s : ShardedQuantEmbeddingCollection) :=
  mkSharded (_embedding_configs s) (_sharding_type_to_sharding s)
    (_embedding_dim s) (_embedding_names_per_sharding s)
    (_embedding_names_per_rank_per_sharding s)
    (_features_to_permute_indices s) (_input_dists s) (_lookups s)
    (_output_dists s) (_feature_splits s) (_features_order s)
    (_features_order_tensor s) (_has_uninitialized_input_dist s) v
    (_need_indices s) (_fused_params s).

(** The dictionary comprehension of [__init__]: one strategy per sharding
    type of the grouped assignment, or the first [ValueError]. *)
Fixpoint create_shardings (groups : list (string * list EmbeddingShardingInfo))
  : result (list (string * EmbeddingSharding)) :=
  match groups with
  | [] => Ok []
  | (sharding_type, embedding_confings) :: rest =>
      sharding ← create_infer_embedding_sharding sharding_type embedding_confings;
      tl ← create_shardings rest;
      Ok ((sharding_type, sharding) :: tl)
  end.

Definition __init__
    (module : QuantEmbeddingCollection)
    (table_name_to_parameter_sharding : list (string * ParameterSharding))
    (fused_params : option FusedParams)
  : result ShardedQuantEmbeddingCollection :=
  let sharding_type_to_sharding_infos :=
    create_sharding_infos_by_sharding table_name_to_parameter_sharding in
  sharding_type_to_sharding ← create_shardings sharding_type_to_sharding_infos;
  let shardings := sharding_type_to_sharding.*2 in
  let self :=
    {| _embedding_configs := embedding_configs module;
       _sharding_type_to_sharding := sharding_type_to_sharding;
       _embedding_dim := embedding_dim module;
       _embedding_names_per_sharding := embedding_names <$> shardings;
       _embedding_names_per_rank_per_sharding :=
         embedding_names_per_rank <$> shardings;
       _features_to_permute_indices := ∅;
       _input_dists := [];
       _lookups := create_lookup fused_params <$> shardings;
       _output_dists := [];
       _feature_splits := [];
       _features_order := [];
       _features_order_tensor := [];
       _has_uninitialized_input_dist := true;
       _has_uninitialized_output_dist := true;
       _need_indices := need_indices module;
       _fused_params := fused_params |} in
  let quant_state_dict_split_scale_bias :=
    is_fused_param_quant_state_dict_split_scale_bias fused_params in
  if quant_state_dict_split_scale_bias then Ok self
  else
    let table_wise_sharded_only :=
      forallb (λ sharding_type, bool_decide (sharding_type = value TABLE_WISE))
              (sharding_type_to_sharding.*1) in
    if table_wise_sharded_only then Ok self else Raise AssertionError.

(** The bodies of the two loops of [_create_input_dist]. *)
Definition add_input_dist (names : list string) (sharding : EmbeddingSharding)
  : Prog ShardedQuantEmbeddingCollection (list string) :=
  modify (λ self,
    set_input_dists (_input_dists self ++ [create_input_dist sharding]) self);;
  modify (λ self,
    set_feature_splits
      (_feature_splits self ++ [length (feature_names sharding)]) self);;
  mret (names ++ feature_names sharding).

Definition add_feature_index (input_feature_names : list string)
    (_ : unit) (f : string) : Prog ShardedQuantEmbeddingCollection unit :=
  i ← lift (py_index input_feature_names f);
  modify (λ self, set_features_order (_features_order self ++ [i]) self).

Definition _create_input_dist (input_feature_names : list string)
  : Prog ShardedQuantEmbeddingCollection unit :=
  modify (set_feature_splits []);;
  self ← get;
  names ← foldP add_input_dist ((_sharding_type_to_sharding self).*2) [];
  modify (set_features_order []);;
  foldP (add_feature_index input_feature_names) names tt;;
  modify (λ self,
    set_features_order
      (if decide (_features_order self = seq 0 (length (_features_order self)))
       then [] else _features_order self) self);;
  modify (λ self, set_features_order_tensor (_features_order self) self).

Definition add_output_dist (_ : unit) (sharding : EmbeddingSharding)
  : Prog ShardedQuantEmbeddingCollection unit :=
  modify (λ self,
    set_output_dists (_output_dists self ++ [create_output_dist sharding]) self).

Definition _create_output_dist
  : Prog ShardedQuantEmbeddingCollection unit :=
  self ← get;
  foldP add_output_dist ((_sharding_type_to_sharding self).*2) tt.

Definition create_context : EmbeddingCollectionContext E :=
  {| sharding_contexts := [] |}.

Definition append_sharding_context (c : InferSequenceShardingContext E)
  : Prog (EmbeddingCollectionContext E) unit :=
  modify (λ ctx, {| sharding_contexts := sharding_contexts ctx ++ [c] |}).

(** The lazy initialisation at the head of [input_dist]. *)
Definition ensure_dists (features : KeyedJaggedTensor E)
  : Prog (ShardedQuantEmbeddingCollection * EmbeddingCollectionContext E)
         unit :=
  self ← on_self get;
  (if _has_uninitialized_input_dist self then
     on_self (_create_input_dist (keys features));;
     on_self (modify (set_has_uninitialized_input_dist false))
   else mret tt);;
  self ← on_self get;
  (if _has_uninitialized_output_dist self then
     on_self _create_output_dist;;
     on_self (modify (set_has_uninitialized_output_dist false))
   else mret tt).

(** The body of the loop over the input distributors of [input_dist]. *)
Definition distribute_to (self : ShardedQuantEmbeddingCollection)
    (features : KeyedJaggedTensor E)
    (features_by_sharding : list (KeyedJaggedTensor E))
    (ret : list (list (KeyedJaggedTensor E))) (i : nat)
  : Prog (ShardedQuantEmbeddingCollection * EmbeddingCollectionContext E)
         (list (list (KeyedJaggedTensor E))) :=
  input_dist ← lift (getitem (_input_dists self) i);
  features_i ← lift (getitem features_by_sharding i);
  '(input_dist_result, unbucketize) ←
    lift (input_dist_forward input_dist features_i);
  on_ctx (append_sharding_context
            {| features := input_dist_result;
               features_before_input_dist := features;
               unbucketize_permute_tensor := unbucketize |});;
  mret (ret ++ [input_dist_result]).

(** The split and the loop over the input distributors at the tail of
    [input_dist], for the features as they are after the permute step. *)
Definition distribute (self : ShardedQuantEmbeddingCollection)
    (features : KeyedJaggedTensor E)
  : Prog (ShardedQuantEmbeddingCollection * EmbeddingCollectionContext E)
         (list (list (KeyedJaggedTensor E))) :=
  features_by_sharding ← lift (kjt_split features (_feature_splits self));
  foldP (distribute_to self features features_by_sharding)
        (seq 0 (length (_input_dists self))) [].

Definition input_dist (features : KeyedJaggedTensor E)
  : Prog (ShardedQuantEmbeddingCollection * EmbeddingCollectionContext E)
         (list (list (KeyedJaggedTensor E))) :=
  ensure_dists features;;
  self ← on_self get;
  features ←
    lift (match _features_order self with
          | [] => Ok features
          | _ => kjt_permute features (_features_order self)
          end);
  distribute self features.

(** [input_dist] without the shortcut: the features are always permuted,
    here with the identity permutation of the input keys. *)
Definition input_dist_identity_permute (features : KeyedJaggedTensor E)
  : Prog (ShardedQuantEmbeddingCollection * EmbeddingCollectionContext E)
         (list (list (KeyedJaggedTensor E))) :=
  ensure_dists features;;
  self ← on_self get;
  features ← lift (kjt_permute features (seq 0 (length (keys features))));
  distribute self features.

(** [[f(o) for o in l]] *)
Fixpoint map_result {A B : Type} (f : A → result B) (l : list A)
  : result (list B) :=
  match l with
  | [] => Ok []
  | a :: l' => b ← f a; bs ← map_result f l'; Ok (b :: bs)
  end.

Fixpoint compute_loop (embedding_dim : nat) (lookups : list Lookup)
    (dist_input : list (list (KeyedJaggedTensor E)))
    (ret : list (list (list (list E))))
  : result (list (list (list (list E)))) :=
  match lookups, dist_input with
  | lookup :: lookups', features :: dist_input' =>
      outs ← lookup_forward (lookup_sharding lookup)
               (lookup_fused_params lookup) features;
      views ← map_result (λ o, view_rows o embedding_dim) outs;
      compute_loop embedding_dim lookups' dist_input' (ret ++ [views])
  | _, _ => Ok ret
  end.

Definition compute (self : ShardedQuantEmbeddingCollection)
    (ctx : EmbeddingCollectionContext E)
    (dist_input : list (list (KeyedJaggedTensor E)))
  : result (list (list (list (list E)))) :=
  compute_loop (_embedding_dim self) (_lookups self) dist_input [].

(** The five lists [output_dist] fills while it walks the strategies. *)
Record OutputDistAcc : Type := mkAcc {
  emb_per_sharding : list (list (list (list E)));
  features_before_input_dist_per_sharding : list (KeyedJaggedTensor E);
  features_per_sharding : list (list (KeyedJaggedTensor E));
  unbucketize_tensor_idxs_per_sharding : list Z;
  unbucketize_tensors : list (list Z);
}.

(** [_fx_unwrap_optional_tensor] *)
Definition _fx_unwrap_optional_tensor (optional : option (list Z))
  : result (list Z) :=
  match optional with
  | Some t => Ok t
  | None => Raise AssertionError
  end.

(** The loop of [output_dist]; [zip] stops at the shortest of the output
    distributors, the lookup outputs and the sharding contexts. *)
Fixpoint output_dist_loop (output_dists : list OutputDist)
    (output : list (list (list (list E))))
    (ctxs : list (InferSequenceShardingContext E))
    (acc : OutputDistAcc) : result OutputDistAcc :=
  match output_dists, output, ctxs with
  | sharding_output_dist :: output_dists', embeddings :: output',
    sharding_ctx :: ctxs' =>
      sharding_output_dist_res ←
        output_dist_forward (output_dist_sharding sharding_output_dist)
          embeddings sharding_ctx;
      '(tensors, idxs) ←
        match unbucketize_permute_tensor sharding_ctx with
        | None =>
            Ok (unbucketize_tensors acc,
                unbucketize_tensor_idxs_per_sharding acc ++ [(-1)%Z])
        | Some t =>
            t' ← _fx_unwrap_optional_tensor (Some t);
            let tensors := unbucketize_tensors acc ++ [t'] in
            Ok (tensors,
                unbucketize_tensor_idxs_per_sharding acc
                  ++ [(Z.of_nat (length tensors) - 1)%Z])
        end;
      output_dist_loop output_dists' output' ctxs'
        {| emb_per_sharding := emb_per_sharding acc ++ [sharding_output_dist_res];
           features_before_input_dist_per_sharding :=
             features_before_input_dist_per_sharding acc
               ++ [features_before_input_dist sharding_ctx];
           features_per_sharding :=
             features_per_sharding acc ++ [features sharding_ctx];
           unbucketize_tensor_idxs_per_sharding := idxs;
           unbucketize_tensors := tensors |}
  | _, _, _ => Ok acc
  end.

Definition output_dist (self : ShardedQuantEmbeddingCollection)
    (ctx : EmbeddingCollectionContext E)
    (output : list (list (list (list E))))
  : result (gmap string (JaggedTensor E)) :=
  acc ← output_dist_loop (_output_dists self) output (sharding_contexts ctx)
           (mkAcc [] [] [] [] []);
  output_jt_dict (emb_per_sharding acc) (features_per_sharding acc)
    (_embedding_names_per_rank_per_sharding self) (_need_indices self)
    (features_before_input_dist_per_sharding acc)
    (_features_to_permute_indices self)
    (unbucketize_tensors acc) (unbucketize_tensor_idxs_per_sharding acc).

Definition compute_and_output_dist (self : ShardedQuantEmbeddingCollection)
    (ctx : EmbeddingCollectionContext E)
    (input : list (list (KeyedJaggedTensor E)))
  : result (gmap string (JaggedTensor E)) :=
  output ← compute self ctx input;
  output_dist self ctx output.

Definition forward (input : KeyedJaggedTensor E)
  : Prog ShardedQuantEmbeddingCollection (gmap string (JaggedTensor E)) :=
  λ self,
    let ctx := create_context in
    match input_dist input (self, ctx) with
    | ((self', ctx'), Ok dist_input) =>
        (self', compute_and_output_dist self' ctx' dist_input)
    | ((self', _), Raise e) => (self', Raise e)
    end.

End module.

(** ** A small concrete deployment

    One destination per strategy, embedding dimension one.  A table serves
    the feature that has its name; the lookup returns each id as its own
    one-entry embedding row; the row-wise distributor keeps the order of
    the values, so its unbucketize permutation is the identity. *)

Module Demo.

Definition table_names (sharding : EmbeddingSharding) : list string :=
  match sharding with
  | InferTwSequenceEmbeddingSharding infos
  | InferRwSequenceEmbeddingSharding infos => info_table <$> infos
  end.

#[export] Instance backend : Backend Z := {|
  FusedParams := bool;
  is_fused_param_quant_state_dict_split_scale_bias := default false;
  feature_names := table_names;
  embedding_names := table_names;
  embedding_names_per_rank := λ sharding, [table_names sharding];
  tw_input_forward := λ _ f, Ok [f];
  rw_input_forward := λ _ f,
    Ok ([f], Z.of_nat <$> seq 0 (length (values f)));
  lookup_forward := λ _ _ fs, Ok (values <$> fs);
  output_dist_forward := λ _ embeddings _, Ok embeddings;
|}.

Definition module : QuantEmbeddingCollection :=
  {| embedding_configs :=
       [ mkEmbeddingConfig "table_0" ["table_0"] 1 4;
         mkEmbeddingConfig "table_1" ["table_1"] 1 4 ];
     embedding_dim := 1;
     need_indices := false |}.

Definition plan (type_0 type_1 : string) : list (string * ParameterSharding) :=
  [ ("table_0", mkParameterSharding type_0 [0]);
    ("table_1", mkParameterSharding type_1 [0]) ].

(** Two features, three examples: the first rank's batch of the
    repository's sharding test. *)
Definition batch : KeyedJaggedTensor Z :=
  {| keys := ["table_0"; "table_1"];
     values := [0; 1; 2; 0; 1; 2]%Z;
     weights := None;
     lengths := [2; 0; 1; 2; 0; 1];
     stride := 3 |}.

(** The same batch with the two features in the other order. *)
Definition swapped_batch : KeyedJaggedTensor Z :=
  {| keys := ["table_1"; "table_0"];
     values := [0; 1; 2; 0; 1; 2]%Z;
     weights := None;
     lengths := [2; 0; 1; 2; 0; 1];
     stride := 3 |}.

(** The states of the module after construction, by plan. *)
Definition constructed (type_0 type_1 : string) (split_scale_bias : bool)
  : result ShardedQuantEmbeddingCollection :=
  __init__ module (plan type_0 type_1) (Some split_scale_bias).

(** Raw tensors of two destinations holding one row per looked-up id. *)
Definition raw_rows (ids : list Z) : list (list Z) := (λ i, [i]) <$> ids.

(** The module and the context after the first [input_dist] on a batch,
    with the distributed features that call returned. *)
Definition first_pass (type_0 type_1 : string) (b : KeyedJaggedTensor Z)
  : option (ShardedQuantEmbeddingCollection * EmbeddingCollectionContext Z
            * list (list (KeyedJaggedTensor Z))) :=
  match constructed type_0 type_1 true with
  | Ok self =>
      match input_dist b (self, create_context) with
      | ((self', ctx), Ok dist_input) => Some (self', ctx, dist_input)
      | _ => None
      end
  | Raise _ => None
  end.

(** Row-wise reconstruction on two destinations whose rows come back out
    of order: two keys with two examples each, three ids in all. *)
Definition rw_embeddings : list (list (list Z)) :=
  [ [[10]; [12]]; [[11]] ]%Z.
Definition rw_unbucketize : list Z := [0; 2; 1]%Z.
Definition rw_features : KeyedJaggedTensor Z :=
  {| keys := ["a"; "b"]; values := [5; 6; 7]%Z; weights := None;
     lengths := [1; 1; 1; 0]; stride := 2 |}.

(** Table-wise reconstruction: one destination per feature of [batch]. *)
Definition tw_embeddings : list (list (list Z)) :=
  [ raw_rows [0; 1; 2]%Z; raw_rows [0; 1; 2]%Z ].
Definition tw_features : list (KeyedJaggedTensor Z) :=
  [ select_keys batch [0]; select_keys batch [1] ].

End Demo.

(** ** Specification helpers *)

(** The sharding types [create_infer_embedding_sharding] has a strategy for. *)
Definition supported (sharding_type : string) : Prop :=
  sharding_type = value TABLE_WISE ∨ sharding_type = value ROW_WISE.

(** The sharding types that appear in an assignment. *)
Definition sharding_types_of
    (table_name_to_parameter_sharding : list (string * ParameterSharding))
  : list string :=
  (λ e, sharding_type e.2) <$> table_name_to_parameter_sharding.

Section expected.
Context {E : Type}.

(** The result the table-wise path assigns to key number [k] of one
    destination, from that destination's raw tensor and features. *)
Definition tw_jagged_tensor (need_indices : bool) (emb : list (list E))
    (f : KeyedJaggedTensor E) (k : nat) : JaggedTensor E :=
  {| jt_lengths := key_lengths f k;
     jt_values := default [] (segments emb (length_per_key f) !! k);
     jt_weights :=
       if need_indices
       then Some (default [] (segments (values f) (length_per_key f) !! k))
       else None |}.


(** The invariants of a jagged keyed collection that the reconstruction
    relies on: a positive stride, one row of lengths per key. *)
Definition kjt_shaped (f : KeyedJaggedTensor E) : Prop :=
  stride f ≠ 0 ∧ length (lengths f) = length (keys f) * stride f.

(** The data-model invariant: shaped, and length sums agree with the
    value and weight buffers. *)
Definition kjt_wf (f : KeyedJaggedTensor E) : Prop :=
  kjt_shaped f ∧ kjt_consistent f = true.

(** What one destination must satisfy for its raw tensor to be cut by
    shape alone. *)
Definition tw_destination_ready (need_indices : bool)
    (emb : list (list E)) (f : KeyedJaggedTensor E) : Prop :=
  kjt_shaped f ∧
  sum_list (length_per_key f) = length emb ∧
  (need_indices = true → sum_list (length_per_key f) = length (values f)).


End expected.

(** ** The rest of the module *)

Section module_rest.
Context {E : Type} `{!Backend E}.

(** [copy]: the output distributors are created here when no call of
    [input_dist] has created them yet.  The copy of the module itself is
    the base class's work and is not modelled. *)
Definition copy : Prog ShardedQuantEmbeddingCollection unit :=
  self ← get;
  if _has_uninitialized_output_dist self then
    _create_output_dist;;
    modify (set_has_uninitialized_output_dist false)
  else mret tt.

(** The first half of [output_dist] read on its own: the forward pass of
    every output distributor over the zip of distributors, lookup outputs
    and sharding contexts. *)
Fixpoint forward_each (output_dists : list OutputDist)
    (output : list (list (list (list E))))
    (ctxs : list (InferSequenceShardingContext E))
  : result (list (list (list (list E)))) :=
  match output_dists, output, ctxs with
  | sharding_output_dist :: output_dists', embeddings :: output',
    sharding_ctx :: ctxs' =>
      res ← output_dist_forward (output_dist_sharding sharding_output_dist)
              embeddings sharding_ctx;
      rest ← forward_each output_dists' output' ctxs';
      Ok (res :: rest)
  | _, _, _ => Ok []
  end.

(** The second half read on its own: every strategy's reconstruction from
    its distributed rows and the fields of its own sharding context, each
    result merged over the earlier ones. *)
Fixpoint reconstruct_each (embs : list (list (list (list E))))
    (ctxs : list (InferSequenceShardingContext E))
    (embedding_names_per_rank_per_sharding : list (list (list string)))
    (need_indices : bool)
    (features_to_permute_indices : gmap string (list Z))
    (jt_dict : gmap string (JaggedTensor E))
  : result (gmap string (JaggedTensor E)) :=
  match embs, ctxs, embedding_names_per_rank_per_sharding with
  | emb :: embs', sc :: ctxs', names :: names' =>
      d ← _construct_jagged_tensors emb (features sc) names
             (features_before_input_dist sc) need_indices
             (unbucketize_permute_tensor sc) features_to_permute_indices;
      reconstruct_each embs' ctxs' names' need_indices
        features_to_permute_indices (d ∪ jt_dict)
  | _, _, _ => Ok jt_dict
  end.

(** How [output_dist] refers to a sharding context's unbucketize
    permutation: by [-1] when there is none, else by its position in the
    list of collected permutations. *)
Definition refers_to (tensors : list (list Z)) (idx : Z)
    (sc : InferSequenceShardingContext E) : Prop :=
  match unbucketize_permute_tensor sc with
  | None => idx = (-1)%Z
  | Some t => (0 ≤ idx)%Z ∧ tensors !! Z.to_nat idx = Some t
  end.

End module_rest.

Section module_states.
Context {E : Type} `{!Backend E}.

(** A module whose input distributors outnumber what its routing metadata
    accounts for: distributors are already present although the input side
    still counts as uninitialised, or there are more distributors than
    feature splits. *)
Definition over_provisioned (s : ShardedQuantEmbeddingCollection) : Prop :=
  if _has_uninitialized_input_dist s then _input_dists s ≠ []
  else length (_feature_splits s) < length (_input_dists s).

End module_states.

(** ** The sharder *)

(** A value of a [Dict[str, Any]]: a boolean flag, or anything else by name. *)
Inductive py_value : Type :=
  | PyBool (b : bool)
  | PyOther (repr : string).

(** [QuantEmbeddingCollectionSharder]: the fused parameters it was built
    with, a dictionary that [shard] may write to. *)
Record QuantEmbeddingCollectionSharder : Type := mkSharder {
  sharder_fused_params : option (gmap string py_value);
}.

Section sharder.
Context {E : Type} `{!Backend E}.

(** The constants of torchrec/distributed/fused_params.py and
    torchrec/quant/embedding_modules.py, the attributes of the module that
    [shard] reads with [getattr], the sparse type of its output dtype, and
    the reading of a dictionary of fused parameters by the constructor:
    none of them is part of the excerpt. *)
Variables
  (FUSED_PARAM_QUANT_STATE_DICT_SPLIT_SCALE_BIAS : string)
  (FUSED_PARAM_REGISTER_TBE_BOOL : string)
  (MODULE_ATTR_QUANT_STATE_DICT_SPLIT_SCALE_BIAS : string)
  (getattr : QuantEmbeddingCollection → string → option py_value)
  (output_sparse_type : QuantEmbeddingCollection → py_value)
  (as_fused_params : gmap string py_value → FusedParams).

(** [self.fused_params if self.fused_params else {}]: the sharder's own
    dictionary when it is a non-empty one, else a new empty dictionary. *)
Definition uses_own_dict (self : QuantEmbeddingCollectionSharder) : bool :=
  match sharder_fused_params self with
  | Some d => bool_decide (d ≠ ∅)
  | None => false
  end.

(** The dictionary [shard] hands to the constructor (lines 532 to 543). *)
Definition shard_fused_params (self : QuantEmbeddingCollectionSharder)
    (module : QuantEmbeddingCollection) : gmap string py_value :=
  let fused_params :=
    if uses_own_dict self then default ∅ (sharder_fused_params self) else ∅ in
  let fused_params :=
    <["output_dtype" := output_sparse_type module]> fused_params in
  let fused_params :=
    match fused_params !! FUSED_PARAM_QUANT_STATE_DICT_SPLIT_SCALE_BIAS with
    | None =>
        <[FUSED_PARAM_QUANT_STATE_DICT_SPLIT_SCALE_BIAS :=
            default (PyBool false)
              (getattr module MODULE_ATTR_QUANT_STATE_DICT_SPLIT_SCALE_BIAS)]>
          fused_params
    | Some _ => fused_params
    end in
  match fused_params !! FUSED_PARAM_REGISTER_TBE_BOOL with
  | None =>
      <[FUSED_PARAM_REGISTER_TBE_BOOL :=
          default (PyBool false) (getattr module FUSED_PARAM_REGISTER_TBE_BOOL)]>
        fused_params
  | Some _ => fused_params
  end.

(** [shard]: the writes go to the sharder's own dictionary when that is
    the one in use. *)
Definition shard (module : QuantEmbeddingCollection)
    (params : list (string * ParameterSharding))
  : Prog QuantEmbeddingCollectionSharder ShardedQuantEmbeddingCollection :=
  λ self,
    let fused_params := shard_fused_params self module in
    (if uses_own_dict self
     then {| sharder_fused_params := Some fused_params |}
     else self,
     __init__ module params (Some (as_fused_params fused_params))).

End sharder.

(** ** Further concrete cases *)

Module Cases.

(** A batch that carries the first feature of the deployment only. *)
Definition short_batch : KeyedJaggedTensor Z :=
  {| keys := ["table_0"]; values := [0; 1; 2]%Z; weights := None;
     lengths := [2; 0; 1]; stride := 3 |}.

(** The names the sharder uses for its two flags and the module attribute. *)
Definition split_scale_bias_flag : string :=
  "__register_quant_state_dict_split_scale_bias".
Definition register_tbe_flag : string := "__register_tbes_in_named_modules".
Definition split_scale_bias_attr : string := "__quant_state_dict_split_scale_bias".

(** Modules tell themselves apart by their embedding dimension here: the
    one of dimension one has the split scale/bias attribute set, any other
    has no such attribute. *)
Definition module_attr (module : QuantEmbeddingCollection) (attr : string)
  : option py_value :=
  if decide (attr = split_scale_bias_attr)
  then (if decide (embedding_dim module = 1) then Some (PyBool true) else None)
  else None.

Definition other_module : QuantEmbeddingCollection :=
  {| embedding_configs := []; embedding_dim := 2; need_indices := false |}.

(** How the constructor of the deployment reads the fused parameters: the
    split scale/bias flag, off when it is missing. *)
Definition read_flag (d : gmap string py_value) : bool :=
  match d !! split_scale_bias_flag with
  | Some (PyBool b) => b
  | _ => false
  end.

(** A sharder built with a cache setting and no flag. *)
Definition cache_sharder : QuantEmbeddingCollectionSharder :=
  {| sharder_fused_params := Some {["cache_load_factor" := PyOther "0.2"]} |}.

(** A sharder built with the split scale/bias flag switched off. *)
Definition flag_off_sharder : QuantEmbeddingCollectionSharder :=
  {| sharder_fused_params :=
       Some {[split_scale_bias_flag := PyBool false]} |}.

End Cases.

(** ** Properties of the tensor operations *)

Section tensor_facts.
Context {A : Type}.
Implicit Types (t : list A) (sizes : list nat).

Lemma bind_Ok {B} (a : A) (k : A → result B) : (Ok a ≫= k) = k a.
Proof. done. Qed.

Lemma getitem_Some (l : list A) i a : l !! i = Some a → getitem l i = Ok a.
Proof. unfold getitem. by intros ->. Qed.

Lemma getitem_Ok (l : list A) i a : getitem l i = Ok a → l !! i = Some a.
Proof. unfold getitem. by destruct (l !! i); intros [=->]. Qed.

Lemma segments_length t sizes : length (segments t sizes) = length sizes.
Proof. revert t. induction sizes as [|n sizes IH]; intros t; simpl; auto. Qed.

Lemma segments_lookup sizes : ∀ t k n,
  sizes !! k = Some n →
  segments t sizes !! k = Some (take n (drop (sum_list (take k sizes)) t)).
Proof.
  induction sizes as [|m sizes IH]; intros t k n Hk; [done|].
  destruct k as [|k]; simpl in *.
  - by injection Hk as ->.
  - rewrite (IH _ _ _ Hk), drop_drop. done.
Qed.

Lemma segments_lookup_is_Some t sizes k :
  k < length sizes → is_Some (segments t sizes !! k).
Proof. intros. apply lookup_lt_is_Some. by rewrite segments_length. Qed.

Lemma torch_split_Ok t sizes segs :
  torch_split t sizes = Ok segs ↔
  sum_list sizes = length t ∧ segs = segments t sizes.
Proof.
  unfold torch_split. case_decide; split.
  - by intros [=<-].
  - by intros [_ ->].
  - done.
  - intros [? _]. done.
Qed.

Lemma torch_split_sum t sizes :
  sum_list sizes = length t → torch_split t sizes = Ok (segments t sizes).
Proof. intros. by apply torch_split_Ok. Qed.

Lemma view_rows_Ok t stride n :
  stride ≠ 0 → length t = n * stride →
  view_rows t stride = Ok (row stride t <$> seq 0 n).
Proof.
  intros Hs Hl. unfold view_rows. rewrite decide_False by done.
  rewrite Hl, Nat.Div0.mod_mul, decide_True by done.
  by rewrite Nat.div_mul.
Qed.

Lemma view_rows_inv t stride rows :
  view_rows t stride = Ok rows →
  stride ≠ 0 ∧ rows = row stride t <$> seq 0 (length t `div` stride).
Proof.
  unfold view_rows. repeat case_decide; naive_solver.
Qed.

End tensor_facts.

(** ** The reconstruction loops *)

Section reconstruction.
Context {E : Type}.
Implicit Types (f : KeyedJaggedTensor E) (ret : gmap string (JaggedTensor E)).

Lemma length_per_key_length f : length (length_per_key f) = length (keys f).
Proof. unfold length_per_key. by rewrite length_fmap, length_seq. Qed.

Lemma length_per_key_lookup f k :
  k < length (keys f) →
  length_per_key f !! k = Some (sum_list (key_lengths f k)).
Proof.
  intros Hk. unfold length_per_key.
  rewrite list_lookup_fmap, lookup_seq_lt by done. done.
Qed.

Lemma view_rows_shaped f :
  kjt_shaped f →
  view_rows (lengths f) (stride f)
  = Ok (key_lengths f <$> seq 0 (length (keys f))).
Proof. intros [Hs Hl]. by apply view_rows_Ok. Qed.

(** The assignments [ret[key] = mk(i)] of one pass over the keys, when
    every [mk(i)] succeeds: the last assignment to a key wins, and other
    keys are untouched. *)
Lemma assign_from (mk : nat → result (JaggedTensor E))
    (g : nat → JaggedTensor E) ks : ∀ s ret,
  (∀ i, i < length ks → mk (s + i) = Ok (g (s + i))) →
  ∃ ret',
    for_each (λ ret '(i, key), jt ← mk i; Ok (<[key := jt]> ret))
             (zip (seq s (length ks)) ks) ret = Ok ret' ∧
    (∀ i key, ks !! i = Some key →
       (∀ j, i < j → ks !! j ≠ Some key) → ret' !! key = Some (g (s + i))) ∧
    (∀ key, key ∉ ks → ret' !! key = ret !! key).
Proof.
  induction ks as [|key0 ks IH]; intros s ret Hmk.
  - exists ret. simpl. split_and!; [done| |done]. intros i key Hi. done.
  - simpl. pose proof (Hmk 0 ltac:(simpl; lia)) as H0.
    rewrite Nat.add_0_r in H0. rewrite H0. simpl.
    destruct (IH (S s) (<[key0 := g s]> ret)) as (ret' & Hrun & Hlast & Hother).
    { intros i Hi. rewrite Nat.add_succ_l, <- Nat.add_succ_r.
      apply Hmk. simpl. lia. }
    exists ret'. split_and!; [done| |].
    + intros [|i] key Hi Hlater; simpl in Hi.
      * injection Hi as ->. rewrite Hother, lookup_insert_eq, Nat.add_0_r; [done|].
        intros [j Hj]%list_elem_of_lookup. by apply (Hlater (S j)); [lia|].
      * rewrite (Hlast i key Hi), Nat.add_succ_l, <- Nat.add_succ_r; [done|].
        intros j Hj. apply (Hlater (S j)). lia.
    + intros key Hkey. apply not_elem_of_cons in Hkey as [Hne Hnot].
      rewrite Hother, lookup_insert_ne; done.
Qed.

Lemma assign_keys_spec (mk : nat → result (JaggedTensor E))
    (g : nat → JaggedTensor E) ks ret :
  (∀ i, i < length ks → mk i = Ok (g i)) →
  ∃ ret',
    assign_keys mk ks ret = Ok ret' ∧
    (∀ i key, ks !! i = Some key →
       (∀ j, i < j → ks !! j ≠ Some key) → ret' !! key = Some (g i)) ∧
    (∀ key, key ∉ ks → ret' !! key = ret !! key).
Proof. intros Hmk. by apply (assign_from mk g ks 0 ret). Qed.


End reconstruction.

Section row_wise.
Context {E : Type}.
Implicit Types (f : KeyedJaggedTensor E).

Lemma getitem_segments {A} (t : list A) sizes k :
  k < length sizes →
  getitem (segments t sizes) k = Ok (default [] (segments t sizes !! k)).
Proof.
  intros Hk. destruct (segments_lookup_is_Some t sizes k Hk) as [x Hx].
  by rewrite (getitem_Some _ _ _ Hx), Hx.
Qed.

Lemma getitem_key_lengths f k :
  k < length (keys f) →
  getitem (key_lengths f <$> seq 0 (length (keys f))) k = Ok (key_lengths f k).
Proof.
  intros Hk. apply getitem_Some.
  by rewrite list_lookup_fmap, lookup_seq_lt.
Qed.


End row_wise.

Section table_wise.
Context {E : Type}.
Implicit Types (f : KeyedJaggedTensor E) (ret : gmap string (JaggedTensor E)).

Lemma tw_destination_spec embeddings features need_indices ret i emb f :
  embeddings !! i = Some emb → features !! i = Some f →
  tw_destination_ready need_indices emb f →
  ∃ ret',
    tw_destination embeddings features need_indices ret i = Ok ret' ∧
    (∀ k key, keys f !! k = Some key →
       (∀ k', k < k' → keys f !! k' ≠ Some key) →
       ret' !! key = Some (tw_jagged_tensor need_indices emb f k)) ∧
    (∀ key, key ∉ keys f → ret' !! key = ret !! key).
Proof.
  intros Hemb Hf (Hshape & Hsum & Hvals).
  unfold tw_destination.
  rewrite (getitem_Some _ _ _ Hemb), bind_Ok.
  rewrite (getitem_Some _ _ _ Hf), bind_Ok.
  rewrite view_rows_shaped, bind_Ok by done.
  rewrite (torch_split_sum emb), bind_Ok by done.
  destruct need_indices.
  - rewrite (torch_split_sum (values f)), bind_Ok by auto.
    apply assign_keys_spec. intros j Hj.
    rewrite getitem_key_lengths, bind_Ok by done.
    rewrite !getitem_segments by (by rewrite length_per_key_length). done.
  - apply assign_keys_spec. intros j Hj.
    rewrite getitem_key_lengths, bind_Ok by done.
    rewrite !getitem_segments by (by rewrite length_per_key_length). done.
Qed.

Lemma tw_loop embeddings features need_indices : ∀ n s ret,
  (∀ i emb, s ≤ i < s + n → embeddings !! i = Some emb →
     ∃ f, features !! i = Some f ∧ tw_destination_ready need_indices emb f) →
  s + n ≤ length embeddings →
  ∃ ret',
    for_each (tw_destination embeddings features need_indices)
             (seq s n) ret = Ok ret' ∧
    (∀ i emb f k key,
       s ≤ i < s + n →
       embeddings !! i = Some emb → features !! i = Some f →
       keys f !! k = Some key →
       (∀ k', k < k' → keys f !! k' ≠ Some key) →
       (∀ i' f', i < i' < s + n → features !! i' = Some f' → key ∉ keys f') →
       ret' !! key = Some (tw_jagged_tensor need_indices emb f k)) ∧
    (∀ key,
       (∀ i f, s ≤ i < s + n → features !! i = Some f → key ∉ keys f) →
       ret' !! key = ret !! key).
Proof.
  induction n as [|n IH]; intros s ret Hready Hbound.
  - exists ret. simpl. split_and!; [done| |done]. intros; lia.
  - destruct (lookup_lt_is_Some_2 embeddings s) as [emb0 Hemb0]; [lia|].
    destruct (Hready s emb0 ltac:(lia) Hemb0) as (f0 & Hf0 & Hr0).
    destruct (tw_destination_spec embeddings features need_indices ret s
                emb0 f0 Hemb0 Hf0 Hr0) as (ret1 & Hrun1 & Hlast1 & Hother1).
    destruct (IH (S s) ret1) as (ret' & Hrun & Hlast & Hother).
    { intros i emb Hi. apply Hready. lia. }
    { lia. }
    exists ret'. split_and!.
    + simpl. rewrite Hrun1. simpl. exact Hrun.
    + intros i emb f k key Hi Hemb Hf Hk Hlater_k Hlater_i.
      destruct (decide (i = s)) as [->|Hne].
      * assert (emb = emb0) as -> by congruence.
        assert (f = f0) as -> by congruence.
        rewrite Hother; [by apply Hlast1|].
        intros i' f' Hi' Hf'. apply (Hlater_i i' f'); [lia|done].
      * apply (Hlast i emb f k key); try done; [lia|].
        intros i' f' Hi'. apply Hlater_i. lia.
    + intros key Hnot. rewrite Hother.
      * apply Hother1. apply (Hnot s f0); [lia|done].
      * intros i f Hi. apply Hnot. lia.
Qed.

(** C2. Table-wise reconstruction uses shapes only: for every destination
    [i] the raw tensor is split by [length_per_key()] of that
    destination's distributed features, and segment [k] with row [k] of
    the lengths forms the result of key [k]; nothing of another
    destination enters it and no reordering takes place. *)
Theorem tw_reconstruction
    (embeddings : list (list (list E))) (features : list (KeyedJaggedTensor E))
    (embedding_names_per_rank : list (list string))
    (features_before_input_dist : KeyedJaggedTensor E)
    (need_indices : bool)
    (features_to_permute_indices : gmap string (list Z)) :
  (∀ i emb, embeddings !! i = Some emb →
     ∃ f, features !! i = Some f ∧ tw_destination_ready need_indices emb f) →
  ∃ ret,
    _construct_jagged_tensors embeddings features embedding_names_per_rank
      features_before_input_dist need_indices None
      features_to_permute_indices = Ok ret ∧
    ∀ i emb f k key,
      embeddings !! i = Some emb → features !! i = Some f →
      keys f !! k = Some key →
      (∀ k', k < k' → keys f !! k' ≠ Some key) →
      (∀ i' f', i < i' < length embeddings → features !! i' = Some f' →
                key ∉ keys f') →
      ∃ jt, ret !! key = Some jt ∧
            segments emb (length_per_key f) !! k = Some (jt_values jt) ∧
            jt_lengths jt = key_lengths f k.
Proof.
  intros Hready.
  destruct (tw_loop embeddings features need_indices (length embeddings) 0 ∅)
    as (ret & Hrun & Hlast & _).
  { intros i emb _. apply Hready. }
  { done. }
  exists ret. split; [exact Hrun|].
  intros i emb f k key Hemb Hf Hk Hlater_k Hlater_i.
  exists (tw_jagged_tensor need_indices emb f k). split_and!; [|simpl|done].
  - apply (Hlast i emb f k key); try done.
    split; [lia|]. by apply lookup_lt_Some in Hemb.
  - apply lookup_lt_Some in Hk.
    destruct (segments_lookup_is_Some emb (length_per_key f) k) as [x Hx];
      [by rewrite length_per_key_length|].
    by rewrite Hx.
Qed.

End table_wise.

(** ** The two weight modes *)

Section weight_modes.
Context {E : Type}.
Implicit Types (f : KeyedJaggedTensor E) (ret : gmap string (JaggedTensor E)).

Lemma bind_inv {A B} (m : result A) (k : A → result B) b :
  m ≫= k = Ok b → ∃ a, m = Ok a ∧ k a = Ok b.
Proof. destruct m as [a|e]; [|done]. intros H. by exists a. Qed.





End weight_modes.

Section weight_modes_paths.
Context {E : Type}.
Implicit Types (f : KeyedJaggedTensor E) (ret : gmap string (JaggedTensor E)).




End weight_modes_paths.

Section weight_modes_claim.
Context {E : Type}.


End weight_modes_claim.

(** ** Construction *)

Section construction.
Context {E : Type} `{!Backend E}.

Lemma dict_append_keys {A} (d : list (string * list A)) k x k' :
  k' ∈ (dict_append d k x).*1 ↔ k' = k ∨ k' ∈ d.*1.
Proof.
  induction d as [|[k0 xs] d IH]; simpl.
  - set_solver.
  - case_decide; simpl; set_solver.
Qed.

Lemma grouped_keys (l : list (string * ParameterSharding)) : ∀ d k,
  k ∈ (foldl (λ d '(table, ps),
                dict_append d (sharding_type ps)
                  {| info_table := table; param_sharding := ps |}) d l).*1
  ↔ k ∈ d.*1 ∨ k ∈ sharding_types_of l.
Proof.
  unfold sharding_types_of.
  induction l as [|[table ps] l IH]; intros d k; simpl.
  - set_solver.
  - rewrite IH, dict_append_keys. set_solver.
Qed.

Lemma create_sharding_infos_by_sharding_keys l k :
  k ∈ (create_sharding_infos_by_sharding l).*1 ↔ k ∈ sharding_types_of l.
Proof.
  unfold create_sharding_infos_by_sharding. rewrite grouped_keys. set_solver.
Qed.

Lemma create_infer_embedding_sharding_supported st infos :
  supported st → ∃ s, create_infer_embedding_sharding st infos = Ok s.
Proof.
  unfold create_infer_embedding_sharding.
  intros [->| ->]; repeat case_decide; eauto; done.
Qed.

Lemma create_infer_embedding_sharding_unsupported st infos :
  ¬ supported st → create_infer_embedding_sharding st infos = Raise ValueError.
Proof.
  unfold create_infer_embedding_sharding, supported.
  intros Hn. repeat case_decide; tauto.
Qed.

Lemma supported_dec st : supported st ∨ ¬ supported st.
Proof.
  unfold supported.
  destruct (decide (st = value TABLE_WISE)), (decide (st = value ROW_WISE));
    tauto.
Qed.

(** The comprehension yields one strategy per group exactly when every
    sharding type is supported, and otherwise raises [ValueError]. *)
Lemma create_shardings_supported groups :
  Forall supported groups.*1 →
  ∃ r, create_shardings groups = Ok r ∧ r.*1 = groups.*1.
Proof.
  induction groups as [|[st infos] groups IH]; simpl; intros Hall.
  - by exists [].
  - apply Forall_cons in Hall as [Hst Hall].
    destruct (create_infer_embedding_sharding_supported st infos Hst) as [s ->].
    destruct (IH Hall) as (r & -> & Hr).
    exists ((st, s) :: r). split; [done|]. by rewrite !fmap_cons, Hr.
Qed.

Lemma create_shardings_unsupported groups st :
  st ∈ groups.*1 → ¬ supported st →
  create_shardings groups = Raise ValueError.
Proof.
  induction groups as [|[st0 infos] groups IH]; simpl; intros Hin Hn.
  - by apply elem_of_nil in Hin.
  - destruct (supported_dec st0) as [Hs|Hs].
    + destruct (create_infer_embedding_sharding_supported st0 infos Hs) as [s ->].
      rewrite bind_Ok, IH; [done| |done].
      apply elem_of_cons in Hin as [->|]; done.
    + by rewrite create_infer_embedding_sharding_unsupported.
Qed.

(** C3. Construction fails with the configuration error ([ValueError])
    whenever the assignment contains a sharding type other than the two
    that [create_infer_embedding_sharding] handles; the error leaves the
    constructor at once, nothing catches it or tries again. *)
Theorem unsupported_sharding_type_fails
    (module : QuantEmbeddingCollection)
    (table_name_to_parameter_sharding : list (string * ParameterSharding))
    (fused_params : option FusedParams) (st : string) :
  st ∈ sharding_types_of table_name_to_parameter_sharding →
  ¬ supported st →
  __init__ module table_name_to_parameter_sharding fused_params
    = Raise ValueError.
Proof.
  intros Hin Hn. unfold __init__.
  rewrite (create_shardings_unsupported _ st); [done| |done].
  by apply create_sharding_infos_by_sharding_keys.
Qed.

Lemma all_table_wise_forallb (l : list string) :
  forallb (λ st, bool_decide (st = value TABLE_WISE)) l = true
  ↔ Forall (λ st, st = value TABLE_WISE) l.
Proof.
  induction l as [|st l IH]; simpl.
  - split; [constructor|done].
  - rewrite andb_true_iff, bool_decide_eq_true, Forall_cons, IH. done.
Qed.

Lemma Forall_elem_iff {A} (P : A → Prop) (l1 l2 : list A) :
  (∀ x, x ∈ l1 ↔ x ∈ l2) → Forall P l1 ↔ Forall P l2.
Proof. intros H. rewrite !Forall_forall. naive_solver. Qed.

(** C5, as the constructor has it.  When every sharding type of the
    assignment is supported: without the split scale/bias flag the
    constructor fails with [AssertionError] unless every sharding type is
    table-wise, and with the flag it accepts any mix. *)
Theorem split_scale_bias_gate
    (module : QuantEmbeddingCollection)
    (table_name_to_parameter_sharding : list (string * ParameterSharding))
    (fused_params : option FusedParams) :
  Forall supported (sharding_types_of table_name_to_parameter_sharding) →
  if is_fused_param_quant_state_dict_split_scale_bias fused_params
  then ∃ self,
    __init__ module table_name_to_parameter_sharding fused_params = Ok self
  else
    (Forall (λ st, st = value TABLE_WISE)
            (sharding_types_of table_name_to_parameter_sharding) →
     ∃ self,
       __init__ module table_name_to_parameter_sharding fused_params
         = Ok self) ∧
    (¬ Forall (λ st, st = value TABLE_WISE)
              (sharding_types_of table_name_to_parameter_sharding) →
     __init__ module table_name_to_parameter_sharding fused_params
       = Raise AssertionError).
Proof.
  intros Hsup. unfold __init__.
  destruct (create_shardings_supported
              (create_sharding_infos_by_sharding table_name_to_parameter_sharding))
    as (r & -> & Hr).
  { revert Hsup. apply Forall_elem_iff.
    intros x. by rewrite create_sharding_infos_by_sharding_keys. }
  rewrite bind_Ok.
  destruct (is_fused_param_quant_state_dict_split_scale_bias fused_params);
    [by eexists|].
  assert (Forall (λ st, st = value TABLE_WISE) r.*1 ↔
          Forall (λ st, st = value TABLE_WISE)
                 (sharding_types_of table_name_to_parameter_sharding)) as Hiff.
  { rewrite Hr. apply Forall_elem_iff.
    intros x. by rewrite create_sharding_infos_by_sharding_keys. }
  rewrite <- Hiff, <- all_table_wise_forallb.
  destruct (forallb _ r.*1); split; intros; try done; by eexists.
Qed.

End construction.

(** ** Lazy initialisation *)

Section lazy_init.
Context {E : Type} `{!Backend E}.
Implicit Types (s self : ShardedQuantEmbeddingCollection)
               (c ctx : EmbeddingCollectionContext E)
               (f : KeyedJaggedTensor E).

Lemma prog_bind_Ok {S A B} (m : Prog S A) (k : A → Prog S B) st st' a :
  m st = (st', Ok a) → (m ≫= k) st = k a st'.
Proof. unfold mbind, prog_bind. by intros ->. Qed.

Lemma prog_bind_Raise {S A B} (m : Prog S A) (k : A → Prog S B) st st' e :
  m st = (st', Raise e) → (m ≫= k) st = (st', Raise e).
Proof. unfold mbind, prog_bind. by intros ->. Qed.

Lemma add_input_dist_run names sharding s :
  add_input_dist names sharding s
  = (set_feature_splits
       (_feature_splits s ++ [length (feature_names sharding)])
       (set_input_dists (_input_dists s ++ [create_input_dist sharding]) s),
     Ok (names ++ feature_names sharding)).
Proof. done. Qed.

(** The first loop of [_create_input_dist]: one input distributor and one
    split size per strategy, and the strategies' feature names in order. *)
Lemma create_input_dists_loop (shardings : list EmbeddingSharding) :
  ∀ names s,
    foldP add_input_dist shardings names s
    = (set_feature_splits
         (_feature_splits s ++ ((λ sh, length (feature_names sh)) <$> shardings))
         (set_input_dists
            (_input_dists s ++ (create_input_dist <$> shardings)) s),
       Ok (names ++ concat (feature_names <$> shardings))).
Proof.
  induction shardings as [|sh shardings IH]; intros names s.
  - destruct s. cbn. by rewrite !app_nil_r.
  - cbn [foldP]. rewrite (prog_bind_Ok _ _ _ _ _ (add_input_dist_run _ _ _)).
    rewrite IH. destruct s. cbn. by rewrite <- !app_assoc.
Qed.

Lemma add_feature_index_Ok input_feature_names u n s i :
  py_index input_feature_names n = Ok i →
  add_feature_index input_feature_names u n s
  = (set_features_order (_features_order s ++ [i]) s, Ok tt).
Proof.
  intros Hi. unfold add_feature_index.
  by rewrite (prog_bind_Ok _ _ s s i) by (unfold lift; by rewrite Hi).
Qed.

Lemma add_feature_index_Raise input_feature_names u n s e :
  py_index input_feature_names n = Raise e →
  add_feature_index input_feature_names u n s = (s, Raise e).
Proof.
  intros Hi. unfold add_feature_index.
  by rewrite (prog_bind_Raise _ _ s s e) by (unfold lift; by rewrite Hi).
Qed.

(** The second loop: the position of every feature name in the input
    keys, unless one of them is missing. *)
Lemma index_loop_Ok (input_feature_names : list string) names : ∀ s idx,
  map_result (py_index input_feature_names) names = Ok idx →
  foldP (add_feature_index input_feature_names) names tt s
  = (set_features_order (_features_order s ++ idx) s, Ok tt).
Proof.
  induction names as [|n names IH]; intros s idx; cbn [map_result foldP].
  - intros [= <-]. destruct s. cbn. by rewrite app_nil_r.
  - intros (i & Hi & (rest & Hrest & [= <-])%bind_inv)%bind_inv.
    rewrite (prog_bind_Ok _ _ _ _ _ (add_feature_index_Ok _ _ _ _ _ Hi)).
    rewrite (IH _ rest Hrest). destruct s. cbn. by rewrite <- app_assoc.
Qed.

Lemma index_loop_Raise (input_feature_names : list string) names : ∀ s e,
  map_result (py_index input_feature_names) names = Raise e →
  ∃ s',
    foldP (add_feature_index input_feature_names) names tt s = (s', Raise e).
Proof.
  induction names as [|n names IH]; intros s e; cbn [map_result foldP]; [done|].
  destruct (py_index input_feature_names n) as [i|e0] eqn:Hi.
  - rewrite bind_Ok.
    rewrite (prog_bind_Ok _ _ _ _ _ (add_feature_index_Ok _ _ _ _ _ Hi)).
    destruct (map_result (py_index input_feature_names) names) as [rest|e1] eqn:Hr;
      [done|].
    intros [= <-]. by apply IH.
  - intros [= <-].
    rewrite (prog_bind_Raise _ _ _ _ _ (add_feature_index_Raise _ _ _ _ _ Hi)).
    by eexists.
Qed.

Lemma create_output_dists_loop (shardings : list EmbeddingSharding) : ∀ s,
  foldP add_output_dist shardings tt s
  = (set_output_dists (_output_dists s ++ (create_output_dist <$> shardings)) s,
     Ok tt).
Proof.
  induction shardings as [|sh shardings IH]; intros s.
  - destruct s. cbn. by rewrite app_nil_r.
  - cbn [foldP]. rewrite (prog_bind_Ok _ _ s _ tt eq_refl).
    rewrite IH. destruct s. cbn. by rewrite <- app_assoc.
Qed.

Lemma modify_bind {S B} (g : S → S) (k : unit → Prog S B) st :
  (modify g ≫= k) st = k tt (g st).
Proof. done. Qed.

Lemma get_bind {S B} (k : S → Prog S B) st : (get ≫= k) st = k st st.
Proof. done. Qed.

Lemma lift_bind {S A B} (r : result A) (k : A → Prog S B) st :
  (lift r ≫= k) st
  = match r with Ok a => k a st | Raise e => (st, Raise e) end.
Proof. by destruct r. Qed.

Lemma on_self_get_bind {S C B} (k : S → Prog (S * C) B) (s : S) (c : C) :
  (on_self get ≫= k) (s, c) = k s (s, c).
Proof. done. Qed.

Lemma on_self_run {S C A} (m : Prog S A) (s : S) (c : C) :
  on_self m (s, c) = (((m s).1, c), (m s).2).
Proof. unfold on_self. by destruct (m s). Qed.

(** [_create_input_dist] when every feature name of the strategies occurs
    among the input keys. *)
Lemma _create_input_dist_Ok input_feature_names s idx :
  map_result (py_index input_feature_names)
    (concat (feature_names <$> (_sharding_type_to_sharding s).*2)) = Ok idx →
  _create_input_dist input_feature_names s
  = (let order := if decide (idx = seq 0 (length idx)) then [] else idx in
     set_features_order_tensor order
       (set_features_order order
          (set_feature_splits
             ((λ sh, length (feature_names sh))
                <$> (_sharding_type_to_sharding s).*2)
             (set_input_dists
                (_input_dists s
                   ++ (create_input_dist <$> (_sharding_type_to_sharding s).*2))
                s))),
     Ok tt).
Proof.
  intros Hidx. unfold _create_input_dist.
  rewrite modify_bind, get_bind.
  rewrite (prog_bind_Ok _ _ _ _ _ (create_input_dists_loop _ _ _)).
  rewrite modify_bind.
  rewrite (prog_bind_Ok _ _ _ _ _ (index_loop_Ok _ _ _ _ Hidx)).
  rewrite modify_bind. destruct s. cbn. done.
Qed.

Lemma _create_input_dist_Raise input_feature_names s e :
  map_result (py_index input_feature_names)
    (concat (feature_names <$> (_sharding_type_to_sharding s).*2)) = Raise e →
  ∃ s', _create_input_dist input_feature_names s = (s', Raise e).
Proof.
  intros Hidx. unfold _create_input_dist.
  rewrite modify_bind, get_bind.
  rewrite (prog_bind_Ok _ _ _ _ _ (create_input_dists_loop _ _ _)).
  rewrite modify_bind.
  edestruct index_loop_Raise as [s' Hs']; [exact Hidx|].
  rewrite (prog_bind_Raise _ _ _ _ _ (Hs')). by eexists.
Qed.

Lemma _create_output_dist_run s :
  _create_output_dist s
  = (set_output_dists
       (_output_dists s
          ++ (create_output_dist <$> (_sharding_type_to_sharding s).*2)) s,
     Ok tt).
Proof.
  unfold _create_output_dist. rewrite get_bind.
  apply create_output_dists_loop.
Qed.

Lemma ensure_dists_initialized s c f :
  _has_uninitialized_input_dist s = false →
  _has_uninitialized_output_dist s = false →
  ensure_dists f (s, c) = ((s, c), Ok tt).
Proof.
  intros Hi Ho. unfold ensure_dists.
  rewrite on_self_get_bind, Hi.
  rewrite (prog_bind_Ok _ _ (s, c) (s, c) tt eq_refl).
  by rewrite on_self_get_bind, Ho.
Qed.

(** The first call: both families of distributors are created and the
    routing metadata is fixed. *)
Lemma ensure_dists_first s c f idx :
  _has_uninitialized_input_dist s = true →
  map_result (py_index (keys f))
    (concat (feature_names <$> (_sharding_type_to_sharding s).*2)) = Ok idx →
  ∃ s1,
    ensure_dists f (s, c) = ((s1, c), Ok tt) ∧
    _has_uninitialized_input_dist s1 = false ∧
    _has_uninitialized_output_dist s1 = false ∧
    _sharding_type_to_sharding s1 = _sharding_type_to_sharding s ∧
    _features_order s1 = (if decide (idx = seq 0 (length idx)) then [] else idx) ∧
    _feature_splits s1
      = (λ sh, length (feature_names sh)) <$> (_sharding_type_to_sharding s).*2 ∧
    _input_dists s1
      = _input_dists s
          ++ (create_input_dist <$> (_sharding_type_to_sharding s).*2) ∧
    _output_dists s1
      = if _has_uninitialized_output_dist s
        then _output_dists s
               ++ (create_output_dist <$> (_sharding_type_to_sharding s).*2)
        else _output_dists s.
Proof.
  intros Hi Hidx. unfold ensure_dists.
  rewrite on_self_get_bind, Hi.
  erewrite prog_bind_Ok; last first.
  { erewrite prog_bind_Ok; last first.
    { rewrite on_self_run, (_create_input_dist_Ok _ _ _ Hidx). reflexivity. }
    rewrite on_self_run. reflexivity. }
  rewrite on_self_get_bind.
  destruct s; cbn [set_has_uninitialized_input_dist set_features_order_tensor
    set_features_order set_feature_splits set_input_dists
    _has_uninitialized_output_dist _has_uninitialized_input_dist
    _sharding_type_to_sharding _features_order _feature_splits _input_dists
    _output_dists _embedding_configs _embedding_dim
    _embedding_names_per_sharding _embedding_names_per_rank_per_sharding
    _features_to_permute_indices _lookups _features_order_tensor
    _need_indices _fused_params fst snd modify] in *.
  destruct _has_uninitialized_output_dist0.
  - erewrite prog_bind_Ok; last first.
    { rewrite on_self_run, _create_output_dist_run. reflexivity. }
    rewrite on_self_run. cbn.
    eexists. split; [reflexivity|]. cbn. split_and!; done.
  - eexists. split; [reflexivity|]. cbn. split_and!; done.
Qed.

Lemma ensure_dists_Raise s c f e :
  _has_uninitialized_input_dist s = true →
  map_result (py_index (keys f))
    (concat (feature_names <$> (_sharding_type_to_sharding s).*2)) = Raise e →
  ∃ s1, ensure_dists f (s, c) = ((s1, c), Raise e).
Proof.
  intros Hi Hidx. unfold ensure_dists.
  rewrite on_self_get_bind, Hi.
  destruct (_create_input_dist_Raise _ _ _ Hidx) as [s' Hs'].
  exists s'.
  erewrite prog_bind_Raise; [reflexivity|].
  erewrite prog_bind_Raise; [reflexivity|].
  by rewrite on_self_run, Hs'.
Qed.

(** A loop whose body leaves [self] alone leaves [self] alone. *)
Lemma foldP_self {A B} (body : B → A →
      Prog (ShardedQuantEmbeddingCollection * EmbeddingCollectionContext E) B)
    (l : list A) :
  (∀ acc a s c, (body acc a (s, c)).1.1 = s) →
  ∀ acc s c, (foldP body l acc (s, c)).1.1 = s.
Proof.
  intros Hbody. induction l as [|a l IH]; intros acc s c; [done|].
  cbn [foldP]. unfold mbind, prog_bind.
  pose proof (Hbody acc a s c) as Hs.
  destruct (body acc a (s, c)) as [[s' c'] [b|e]]; cbn in Hs; subst s'.
  - apply IH.
  - done.
Qed.

Lemma distribute_to_self self f fbs ret i s c :
  (distribute_to self f fbs ret i (s, c)).1.1 = s.
Proof.
  unfold distribute_to.
  rewrite lift_bind. destruct (getitem (_input_dists self) i); [|done].
  rewrite lift_bind. destruct (getitem fbs i); [|done].
  rewrite lift_bind. destruct (input_dist_forward _ _) as [[r u]|]; [|done].
  done.
Qed.

Lemma distribute_self self f s c : (distribute self f (s, c)).1.1 = s.
Proof.
  unfold distribute. rewrite lift_bind.
  destruct (kjt_split f (_feature_splits self)); [|done].
  apply foldP_self. intros. apply distribute_to_self.
Qed.

(** [input_dist] is the lazy initialisation, then the permute step when a
    feature order is stored, then the distribution. *)
Lemma input_dist_unfold f s c :
  input_dist f (s, c)
  = match ensure_dists f (s, c) with
    | ((s1, c1), Ok _) =>
        match (match _features_order s1 with
               | [] => Ok f
               | _ => kjt_permute f (_features_order s1)
               end) with
        | Ok f' => distribute s1 f' (s1, c1)
        | Raise e => ((s1, c1), Raise e)
        end
    | (st, Raise e) => (st, Raise e)
    end.
Proof.
  unfold input_dist, mbind at 1, prog_bind at 1.
  destruct (ensure_dists f (s, c)) as [[s1 c1] [[]|e]]; [|done].
  by rewrite on_self_get_bind, lift_bind.
Qed.

(** Once both flags are down, a call leaves the module as it is. *)
Lemma input_dist_initialized s c f :
  _has_uninitialized_input_dist s = false →
  _has_uninitialized_output_dist s = false →
  (input_dist f (s, c)).1.1 = s.
Proof.
  intros Hi Ho. rewrite input_dist_unfold, ensure_dists_initialized by done.
  destruct (match _features_order s with
            | [] => Ok f | _ => kjt_permute f (_features_order s) end);
    [apply distribute_self|done].
Qed.

Lemma init_fresh module assignment fused_params self :
  __init__ module assignment fused_params = Ok self →
  _has_uninitialized_input_dist self = true ∧
  _has_uninitialized_output_dist self = true ∧
  _input_dists self = [] ∧ _output_dists self = [].
Proof.
  unfold __init__. intros (r & _ & Hrest)%bind_inv. revert Hrest.
  destruct (is_fused_param_quant_state_dict_split_scale_bias fused_params).
  - by intros [= <-].
  - destruct (forallb _ _); [by intros [= <-]|done].
Qed.

Lemma py_index_present (l : list string) x :
  x ∈ l → ∃ i, py_index l x = Ok i.
Proof.
  intros Hx. unfold py_index.
  destruct (list_find (λ y, y = x) l) as [[i y]|] eqn:Hfind; [by exists i|].
  apply list_find_None in Hfind. rewrite Forall_forall in Hfind.
  by destruct (Hfind x Hx).
Qed.

Lemma map_py_index_present (l names : list string) :
  names ⊆ l → ∃ idx, map_result (py_index l) names = Ok idx.
Proof.
  induction names as [|n names IH]; intros Hsub; [by exists []|].
  destruct (py_index_present l n) as [i Hi]; [apply Hsub; by left|].
  destruct IH as [rest Hrest]; [intros x Hx; apply Hsub; by right|].
  exists (i :: rest). cbn [map_result]. by rewrite Hi, bind_Ok, Hrest.
Qed.

(** Whatever its outcome, [input_dist] leaves the module as the lazy
    initialisation left it. *)
Lemma input_dist_state f s c s1 c1 :
  ensure_dists f (s, c) = ((s1, c1), Ok tt) →
  (input_dist f (s, c)).1.1 = s1.
Proof.
  intros Hens. rewrite input_dist_unfold, Hens.
  destruct (match _features_order s1 with
            | [] => Ok f
            | _ => kjt_permute f (_features_order s1) end) as [f'|];
    [apply distribute_self|done].
Qed.

(** C4. Initialisation is lazy and, once it has gone through, happens
    once.  When the first batch carries every feature name the strategies
    ask for, the first call of [input_dist] on a constructed module,
    whether it then returns or raises, creates the input and the output
    distributors, one per strategy, and fixes the feature splits and the
    feature order from the keys of that first batch; every later call,
    whatever its batch and context, leaves the module (distributors,
    splits, order, flags) exactly as the first call left it. *)
Theorem lazy_init_once
    (module : QuantEmbeddingCollection)
    (table_name_to_parameter_sharding : list (string * ParameterSharding))
    (fused_params : option FusedParams)
    (self0 : ShardedQuantEmbeddingCollection)
    (ctx0 : EmbeddingCollectionContext E)
    (features : KeyedJaggedTensor E) :
  __init__ module table_name_to_parameter_sharding fused_params = Ok self0 →
  concat (feature_names <$> (_sharding_type_to_sharding self0).*2)
    ⊆ keys features →
  let shardings := (_sharding_type_to_sharding self0).*2 in
  let self1 := (input_dist features (self0, ctx0)).1.1 in
  (_has_uninitialized_input_dist self1 = false ∧
   _has_uninitialized_output_dist self1 = false ∧
   _input_dists self1 = create_input_dist <$> shardings ∧
   _output_dists self1 = create_output_dist <$> shardings ∧
   _feature_splits self1 = (λ sh, length (feature_names sh)) <$> shardings ∧
   ∃ order,
     map_result (py_index (keys features)) (concat (feature_names <$> shardings))
       = Ok order ∧
     _features_order self1
       = if decide (order = seq 0 (length order)) then [] else order) ∧
  ∀ features' ctx, (input_dist features' (self1, ctx)).1.1 = self1.
Proof.
  intros (Hi & Ho & Hin & Hout)%init_fresh Hkeys shardings self1.
  destruct (map_py_index_present _ _ Hkeys) as [order Hidx].
  destruct (ensure_dists_first self0 ctx0 features order Hi Hidx)
    as (s1 & Hens & Hi1 & Ho1 & Hsh & Hord & Hsp & Hid & Hod).
  assert (self1 = s1) as -> by exact (input_dist_state _ _ _ _ _ Hens).
  rewrite Hin in Hid. rewrite Hout, Ho in Hod.
  split; [|intros; by apply input_dist_initialized].
  split_and!; try done. by exists order.
Qed.

End lazy_init.

(** ** What input distribution records *)

Section recorded_contexts.
Context {E : Type} `{!Backend E}.
Implicit Types (s self : ShardedQuantEmbeddingCollection)
               (c ctx : EmbeddingCollectionContext E)
               (f : KeyedJaggedTensor E).

Lemma prog_bind_inv {S A B} (m : Prog S A) (k : A → Prog S B) st st' b :
  (m ≫= k) st = (st', Ok b) →
  ∃ st1 a, m st = (st1, Ok a) ∧ k a st1 = (st', Ok b).
Proof.
  unfold mbind, prog_bind. destruct (m st) as [st1 [a|e]]; [|done].
  intros Hk. by exists st1, a.
Qed.

Lemma input_dist_forward_unbucketize d fi ri u :
  input_dist_forward d fi = Ok (ri, u) → is_Some u ↔ is_rw_dist d = true.
Proof.
  destruct d as [infos|infos]; cbn.
  - intros (r & _ & [= _ <-])%bind_inv. split; [by intros [? ?]|done].
  - intros ([r u'] & _ & [= _ <-])%bind_inv. split; [done|by eexists].
Qed.

(** One turn of the loop: the distributor's result is returned and one
    sharding context is appended; it holds that result, the features the
    loop was entered with, and the distributor's unbucketize permutation. *)
Lemma distribute_to_Ok self f fbs ret i s c s' c' ret' :
  distribute_to self f fbs ret i (s, c) = ((s', c'), Ok ret') →
  ∃ d fi ri u,
    _input_dists self !! i = Some d ∧ fbs !! i = Some fi ∧
    input_dist_forward d fi = Ok (ri, u) ∧
    s' = s ∧ ret' = ret ++ [ri] ∧
    sharding_contexts c'
    = sharding_contexts c
        ++ [{| features := ri; features_before_input_dist := f;
               unbucketize_permute_tensor := u |}].
Proof.
  unfold distribute_to. rewrite lift_bind.
  destruct (getitem (_input_dists self) i) as [d|] eqn:Hd; [|done].
  rewrite lift_bind. destruct (getitem fbs i) as [fi|] eqn:Hfi; [|done].
  rewrite lift_bind.
  destruct (input_dist_forward d fi) as [[ri u]|] eqn:Hfw; [|done].
  intros [= <- <- <-]. apply getitem_Ok in Hd, Hfi.
  by exists d, fi, ri, u.
Qed.

Lemma distribute_loop_Ok self f fbs (l : list nat) : ∀ ret s c s' c' r,
  foldP (distribute_to self f fbs) l ret (s, c) = ((s', c'), Ok r) →
  ∃ new,
    s' = s ∧ sharding_contexts c' = sharding_contexts c ++ new ∧
    r = ret ++ (features <$> new) ∧ length new = length l ∧
    ∀ j i sc, l !! j = Some i → new !! j = Some sc →
      features_before_input_dist sc = f ∧
      ∃ d fi,
        _input_dists self !! i = Some d ∧ fbs !! i = Some fi ∧
        input_dist_forward d fi
          = Ok (features sc, unbucketize_permute_tensor sc).
Proof.
  induction l as [|i l IH]; intros ret s c s' c' r; cbn [foldP].
  - intros [= <- <- <-]. exists []. by rewrite !app_nil_r.
  - intros ([s1 c1] & ret1 & Hstep & Hrest)%prog_bind_inv.
    apply distribute_to_Ok in Hstep
      as (d & fi & ri & u & Hd & Hfi & Hfw & -> & -> & Hc1).
    apply IH in Hrest as (new & -> & Hc' & -> & Hlen & Hnew).
    eexists (_ :: new). split_and!; [done| | |by cbn; rewrite Hlen|].
    + by rewrite Hc', Hc1, <- app_assoc.
    + by rewrite <- app_assoc.
    + intros [|j] i' sc; cbn.
      * intros [= <-] [= <-]. split; [done|]. by exists d, fi.
      * apply Hnew.
Qed.

(** X13. What a successful [input_dist] appends to the context: one sharding
    context per input distributor, holding the distributor's result, the
    unbucketize permutation exactly for the row-wise distributor, and as
    [features_before_input_dist] the same collection for every strategy:
    the whole batch after the permute step. *)
Lemma input_dist_records f s c s' c' r :
  input_dist f (s, c) = ((s', c'), Ok r) →
  ∃ whole fbs new,
    (match _features_order s' with
     | [] => Ok f
     | _ => kjt_permute f (_features_order s')
     end) = Ok whole ∧
    kjt_split whole (_feature_splits s') = Ok fbs ∧
    sharding_contexts c' = sharding_contexts c ++ new ∧
    r = features <$> new ∧
    length new = length (_input_dists s') ∧
    ∀ i sc, new !! i = Some sc →
      features_before_input_dist sc = whole ∧
      ∃ d fi,
        _input_dists s' !! i = Some d ∧ fbs !! i = Some fi ∧
        input_dist_forward d fi
          = Ok (features sc, unbucketize_permute_tensor sc) ∧
        (is_Some (unbucketize_permute_tensor sc) ↔ is_rw_dist d = true).
Proof.
  rewrite input_dist_unfold.
  destruct (ensure_dists f (s, c)) as [[s1 c1] [[]|e]] eqn:Hens; [|done].
  assert (c1 = c) as ->.
  { revert Hens. unfold ensure_dists. rewrite on_self_get_bind.
    intros ([s2 c2] & [] & H1 & H2)%prog_bind_inv.
    assert (c2 = c) as ->.
    { destruct (_has_uninitialized_input_dist s); [|by injection H1].
      apply prog_bind_inv in H1 as ([s3 c3] & [] & H3 & H4).
      rewrite on_self_run in H3, H4. by injection H3 as ? <-; injection H4. }
    rewrite on_self_get_bind in H2.
    destruct (_has_uninitialized_output_dist s2); [|by injection H2].
    apply prog_bind_inv in H2 as ([s3 c3] & [] & H3 & H4).
    rewrite on_self_run in H3, H4. by injection H3 as ? <-; injection H4. }
  destruct (match _features_order s1 with
            | [] => Ok f
            | _ => kjt_permute f (_features_order s1)
            end) as [whole|] eqn:Hwhole; [|done].
  unfold distribute. rewrite lift_bind.
  destruct (kjt_split whole (_feature_splits s1)) as [fbs|] eqn:Hsplit; [|done].
  intros (new & -> & Hc' & -> & Hlen & Hnew)%distribute_loop_Ok.
  exists whole, fbs, new. rewrite length_seq in Hlen.
  split_and!; try done.
  intros i sc Hsc.
  destruct (Hnew i i sc) as (Hw & d & fi & Hd & Hfi & Hfw); [|done|].
  { apply lookup_seq_lt. apply lookup_lt_Some in Hsc. lia. }
  split; [done|]. exists d, fi. split_and!; try done.
  by eapply input_dist_forward_unbucketize.
Qed.

End recorded_contexts.

(** ** The identity shortcut *)

Section identity_order.
Context {E : Type}.
Implicit Types (f : KeyedJaggedTensor E).

Lemma py_index_NoDup (l : list string) : ∀ pre,
  NoDup (pre ++ l) →
  map_result (py_index (pre ++ l)) l = Ok (seq (length pre) (length l)).
Proof.
  induction l as [|x l IH]; intros pre Hnd; [done|].
  cbn [map_result].
  assert (py_index (pre ++ x :: l) x = Ok (length pre)) as ->.
  { unfold py_index.
    assert (list_find (λ y, y = x) (pre ++ x :: l) = Some (length pre, x)) as ->;
      [|done].
    apply list_find_Some. split_and!; [apply list_lookup_middle; done|done|].
    intros j y Hj Hlt ->. rewrite lookup_app_l in Hj by done.
    apply NoDup_app in Hnd as (_ & Hdisj & _).
    apply (Hdisj x); [by eapply list_elem_of_lookup_2|by left]. }
  rewrite bind_Ok.
  specialize (IH (pre ++ [x])). rewrite <- app_assoc in IH. cbn in IH.
  rewrite IH by done. rewrite length_app. cbn.
  by rewrite Nat.add_1_r.
Qed.

Lemma omap_lookup_seq {A} (l : list A) : ∀ pre,
  omap (λ k, (pre ++ l) !! k) (seq (length pre) (length l)) = l.
Proof.
  induction l as [|x l IH]; intros pre; [done|].
  cbn. rewrite list_lookup_middle by done.
  specialize (IH (pre ++ [x])). rewrite <- app_assoc, length_app in IH.
  cbn in IH. rewrite Nat.add_1_r in IH. by rewrite IH.
Qed.

Lemma concat_rows {A} (stride : nat) (t : list A) n :
  concat (row stride t <$> seq 0 n) = take (n * stride) t.
Proof.
  induction n as [|n IH]; [done|].
  rewrite seq_S, fmap_app, concat_app, IH. cbn. rewrite app_nil_r.
  unfold row. rewrite take_take_drop. f_equal. lia.
Qed.

Lemma concat_key_segments {A} f (buf : list A) n :
  concat (key_segment f buf <$> seq 0 n)
  = take (sum_list (take (n * stride f) (lengths f))) buf.
Proof.
  induction n as [|n IH]; [done|].
  rewrite seq_S, fmap_app, concat_app, IH. cbn. rewrite app_nil_r.
  unfold key_segment, offset_of_key, key_lengths, row.
  rewrite take_take_drop, <- sum_list_with_app, take_take_drop.
  do 3 f_equal. lia.
Qed.

(** Selecting all keys in their order gives the collection back. *)
Lemma select_all_keys f :
  kjt_wf f → select_keys f (seq 0 (length (keys f))) = f.
Proof.
  intros [[Hs Hl] Hc]. unfold kjt_consistent in Hc.
  apply andb_true_iff in Hc as [Hv%bool_decide_eq_true Hw].
  destruct f as [ks vs ws ls st]; cbn in *. unfold select_keys; cbn.
  f_equal.
  - apply (omap_lookup_seq ks []).
  - rewrite concat_key_segments; cbn.
    rewrite <- Hl, (take_ge ls) by lia. by rewrite take_ge by lia.
  - destruct ws as [w|]; [|done]. cbn. f_equal.
    apply bool_decide_eq_true in Hw.
    rewrite concat_key_segments; cbn.
    rewrite <- Hl, (take_ge ls) by lia. by rewrite take_ge by lia.
  - rewrite (concat_rows st ls). by rewrite <- Hl, take_ge by lia.
Qed.

Lemma kjt_permute_identity f :
  kjt_wf f → kjt_permute f (seq 0 (length (keys f))) = Ok f.
Proof.
  intros Hwf. unfold kjt_permute.
  destruct Hwf as [Hsh Hc]. rewrite Hc. cbn.
  rewrite bool_decide_eq_true_2.
  - by rewrite select_all_keys.
  - apply Forall_seq. intros; lia.
Qed.

End identity_order.

Section identity_shortcut.
Context {E : Type} `{!Backend E}.

(** C10. When the keys of the (first) batch are exactly the strategies'
    feature names in their canonical order, the computed feature order is
    the identity, [input_dist] stores the empty order and skips the
    permute step, and the outcome (distributed features, recorded
    contexts, module state) is that of permuting explicitly with the
    identity permutation. *)
Theorem identity_order_shortcut
    (self : ShardedQuantEmbeddingCollection)
    (ctx : EmbeddingCollectionContext E)
    (features : KeyedJaggedTensor E) :
  _has_uninitialized_input_dist self = true →
  keys features
    = concat (feature_names <$> (_sharding_type_to_sharding self).*2) →
  NoDup (keys features) →
  kjt_wf features →
  map_result (py_index (keys features))
    (concat (feature_names <$> (_sharding_type_to_sharding self).*2))
    = Ok (seq 0 (length (keys features))) ∧
  _features_order (input_dist features (self, ctx)).1.1 = [] ∧
  input_dist features (self, ctx)
    = input_dist_identity_permute features (self, ctx).
Proof.
  intros Hi Hkeys Hnd Hwf.
  assert (map_result (py_index (keys features))
            (concat (feature_names <$> (_sharding_type_to_sharding self).*2))
          = Ok (seq 0 (length (keys features)))) as Hidx.
  { rewrite <- Hkeys. apply (py_index_NoDup (keys features) []). done. }
  split; [done|].
  destruct (ensure_dists_first self ctx features _ Hi Hidx)
    as (s1 & Hens & _ & _ & _ & Hord & _).
  rewrite length_seq, decide_True in Hord by done.
  rewrite input_dist_unfold, Hens, Hord.
  split; [by rewrite distribute_self|].
  unfold input_dist_identity_permute.
  rewrite (prog_bind_Ok _ _ _ _ _ Hens), on_self_get_bind, lift_bind.
  by rewrite kjt_permute_identity.
Qed.

End identity_shortcut.

(** ** Cardinalities in [compute_and_output_dist] *)

Section cardinality.
Context {E : Type} `{!Backend E}.

Lemma output_dist_loop_take n : ∀ output_dists output ctxs acc,
  length output_dists `min` (length output `min` length ctxs) ≤ n →
  output_dist_loop output_dists output ctxs acc
  = output_dist_loop (take n output_dists) (take n output) (take n ctxs) acc.
Proof.
  induction n as [|n IH]; intros [|od ods] [|o out] [|sc ctxs] acc Hn;
    cbn in Hn; try done; try lia.
  cbn [take output_dist_loop].
  destruct (output_dist_forward _ _ _); [|done]. rewrite !bind_Ok.
  destruct (unbucketize_permute_tensor sc); cbn; apply IH; lia.
Qed.

Lemma output_dist_loop_no_contexts output_dists output acc :
  output_dist_loop output_dists output [] acc = Ok acc.
Proof. by destruct output_dists, output. Qed.

(** C6, as the code has it.  No cardinality is checked: [output_dist]
    walks the zip of the output distributors, the lookup outputs and the
    sharding contexts, so it processes their overlapping prefix and
    nothing else; with a context that has no entry at all the result is
    the empty mapping as soon as [compute] succeeds. *)
Theorem overlapping_prefix_only
    (self : ShardedQuantEmbeddingCollection)
    (ctx : EmbeddingCollectionContext E)
    (output : list (list (list (list E))))
    (input : list (list (KeyedJaggedTensor E))) :
  (let n := length (_output_dists self)
              `min` (length output `min` length (sharding_contexts ctx)) in
   output_dist self ctx output
   = output_dist (set_output_dists (take n (_output_dists self)) self)
       {| sharding_contexts := take n (sharding_contexts ctx) |}
       (take n output)) ∧
  compute_and_output_dist self create_context input
  = (compute self create_context input ≫= λ _, Ok ∅).
Proof.
  split.
  - intros n. unfold output_dist.
    rewrite (output_dist_loop_take n) by done. by destruct self.
  - unfold compute_and_output_dist.
    destruct (compute self create_context input) as [output'|]; [|done].
    rewrite !bind_Ok. unfold output_dist. cbn [sharding_contexts create_context].
    by rewrite output_dist_loop_no_contexts.
Qed.

End cardinality.

(** ** The concrete deployment at work *)

Section concrete.
Import Demo.

(** C4, counterexample.  The first batch lacks the feature of the second
    table.  The first call raises [ValueError]: it has appended the input
    distributors, created no output distributor and lowered no flag.  The
    second call, on a batch with both features, initialises again: it
    appends a second pair of input distributors, lowers the flags and
    then overruns the two parts of the batch. *)
Lemma failed_first_call_initialises_again :
  ∃ self0 self1 self2 ctx2,
    __init__ module (plan "table_wise" "row_wise") (Some true) = Ok self0 ∧
    input_dist Cases.short_batch (self0, create_context)
      = ((self1, create_context), Raise ValueError) ∧
    _has_uninitialized_input_dist self1 = true ∧
    _has_uninitialized_output_dist self1 = true ∧
    length (_input_dists self1) = 2 ∧ _output_dists self1 = [] ∧
    input_dist batch (self1, create_context)
      = ((self2, ctx2), Raise IndexError) ∧
    self2 ≠ self1 ∧
    _has_uninitialized_input_dist self2 = false ∧
    _has_uninitialized_output_dist self2 = false ∧
    length (_input_dists self2) = 4 ∧ length (_output_dists self2) = 2.
Proof.
  eexists _, _, _, _.
  split; [vm_compute; reflexivity|].
  split; [vm_compute; reflexivity|].
  do 4 (split; [vm_compute; reflexivity|]).
  split; [vm_compute; reflexivity|].
  split; [intros Heq; by apply (f_equal _has_uninitialized_input_dist) in Heq|].
  split_and!; vm_compute; reflexivity.
Qed.

(** C5, counterexample.  Without the flag and with a column-wise table
    the constructor does not reach the assertion: it has already failed
    with [ValueError]. *)
Lemma column_wise_without_flag :
  is_fused_param_quant_state_dict_split_scale_bias (Some false) = false ∧
  ¬ Forall (λ st, st = value TABLE_WISE)
           (sharding_types_of (plan "column_wise" "table_wise")) ∧
  __init__ module (plan "column_wise" "table_wise") (Some false)
    = Raise ValueError ∧
  __init__ module (plan "column_wise" "table_wise") (Some false)
    ≠ Raise AssertionError.
Proof.
  split_and!; [done| |done|done].
  intros H. apply Forall_cons in H as [H _]. done.
Qed.

(** C6, counterexample.  A ready module with one strategy, called with a
    context that has no sharding context: no assertion fails, the result
    is the empty mapping. *)
Lemma empty_context_not_detected :
  match first_pass "table_wise" "table_wise" batch with
  | Some (self, _, dist_input) =>
      length (sharding_contexts (create_context (E:=Z)))
        ≠ length (_output_dists self) ∧
      compute_and_output_dist self create_context dist_input = Ok ∅
  | None => False
  end.
Proof. vm_compute. split; [lia|done]. Qed.

(** C7 at a mixed plan.  With a table-wise and a row-wise strategy, both
    sharding contexts record the whole batch, not the one feature of
    their strategy; the row-wise reconstruction then cuts that strategy's
    rows by the lengths of all keys and the forward pass fails, while the
    same batch passes under a plan with row-wise sharding only. *)
Lemma mixed_plan_records_whole_batch :
  match first_pass "table_wise" "row_wise" batch with
  | Some (self, ctx, _) =>
      (λ c : InferSequenceShardingContext Z, features_before_input_dist c)
        <$> sharding_contexts ctx = [batch; batch] ∧
      select_keys batch [0] ≠ batch ∧ select_keys batch [1] ≠ batch ∧
      (λ c : InferSequenceShardingContext Z,
         match unbucketize_permute_tensor c with
         | Some _ => true
         | None => false
         end) <$> sharding_contexts ctx = [false; true] ∧
      (forward batch self).2 = Raise RuntimeError
  | None => False
  end ∧
  match constructed "row_wise" "row_wise" true with
  | Ok self => is_ok (forward batch self).2 = true
  | Raise _ => False
  end.
Proof. vm_compute. split_and!; done. Qed.

End concrete.

(** ** The theorems at concrete inputs *)

Section witnesses.
Import Demo.


Lemma tw_destinations_ready (need_indices : bool) :
  ∀ i emb, tw_embeddings !! i = Some emb →
    ∃ f, tw_features !! i = Some f ∧ tw_destination_ready need_indices emb f.
Proof.
  intros [|[|i]] emb; cbn; [intros [= <-]..|done].
  - eexists. split; [reflexivity|]. repeat split; done.
  - eexists. split; [reflexivity|]. repeat split; done.
Defined.

Lemma tw_reconstruction_witness :
  (∀ i emb, tw_embeddings !! i = Some emb →
     ∃ f, tw_features !! i = Some f ∧ tw_destination_ready true emb f) ∧
  ∃ ret,
    _construct_jagged_tensors tw_embeddings tw_features [] batch true None ∅
      = Ok ret ∧
    ∀ i emb f k key,
      tw_embeddings !! i = Some emb → tw_features !! i = Some f →
      keys f !! k = Some key →
      (∀ k', k < k' → keys f !! k' ≠ Some key) →
      (∀ i' f', i < i' < length tw_embeddings → tw_features !! i' = Some f' →
                key ∉ keys f') →
      ∃ jt, ret !! key = Some jt ∧
            segments emb (length_per_key f) !! k = Some (jt_values jt) ∧
            jt_lengths jt = key_lengths f k.
Proof.
  split; [exact (tw_destinations_ready true)|].
  exact (tw_reconstruction tw_embeddings tw_features [] batch true ∅
           (tw_destinations_ready true)).
Defined.

Lemma unsupported_sharding_type_fails_witness :
  ("column_wise" : string)
    ∈ sharding_types_of (plan "column_wise" "table_wise") ∧
  ¬ supported "column_wise" ∧
  __init__ module (plan "column_wise" "table_wise") (Some true)
    = Raise ValueError.
Proof.
  assert (("column_wise" : string)
            ∈ sharding_types_of (plan "column_wise" "table_wise")) as H1
    by (by left).
  assert (¬ supported "column_wise") as H2 by (by intros [|]).
  split_and!; [done..|].
  exact (unsupported_sharding_type_fails module
           (plan "column_wise" "table_wise") (Some true) "column_wise" H1 H2).
Defined.

End witnesses.

Section module_witnesses.
Import Demo.


Lemma split_scale_bias_gate_witness :
  Forall supported (sharding_types_of (plan "table_wise" "row_wise")) ∧
  (Forall (λ st, st = value TABLE_WISE)
          (sharding_types_of (plan "table_wise" "row_wise")) →
   ∃ self,
     __init__ module (plan "table_wise" "row_wise") (Some false) = Ok self) ∧
  (¬ Forall (λ st, st = value TABLE_WISE)
            (sharding_types_of (plan "table_wise" "row_wise")) →
   __init__ module (plan "table_wise" "row_wise") (Some false)
     = Raise AssertionError).
Proof.
  assert (Forall supported (sharding_types_of (plan "table_wise" "row_wise")))
    as H by (unfold sharding_types_of; cbn;
             repeat (apply Forall_cons_2; [(by left) || (by right)|]);
             apply Forall_nil_2).
  split; [done|].
  exact (split_scale_bias_gate module (plan "table_wise" "row_wise")
           (Some false) H).
Defined.

Lemma lazy_init_once_witness :
  ∃ self0,
    __init__ module (plan "table_wise" "row_wise") (Some true) = Ok self0 ∧
    concat (feature_names <$> (_sharding_type_to_sharding self0).*2)
      ⊆ keys swapped_batch ∧
    let self1 := (input_dist swapped_batch (self0, create_context)).1.1 in
    (_has_uninitialized_input_dist self1 = false ∧
     _has_uninitialized_output_dist self1 = false ∧
     _input_dists self1
       = create_input_dist <$> (_sharding_type_to_sharding self0).*2 ∧
     _output_dists self1
       = create_output_dist <$> (_sharding_type_to_sharding self0).*2 ∧
     _feature_splits self1
       = (λ sh, length (feature_names sh))
           <$> (_sharding_type_to_sharding self0).*2 ∧
     ∃ order,
       map_result (py_index (keys swapped_batch))
         (concat (feature_names <$> (_sharding_type_to_sharding self0).*2))
         = Ok order ∧
       _features_order self1
         = if decide (order = seq 0 (length order)) then [] else order) ∧
    ∀ features' ctx, (input_dist features' (self1, ctx)).1.1 = self1.
Proof.
  eexists. split; [vm_compute; reflexivity|].
  assert ((["table_0"; "table_1"] : list string) ⊆ keys swapped_batch) as Hkeys
    by (intros x [->|[->|?%elem_of_nil]%elem_of_cons]%elem_of_cons;
        [by right; left|by left|done]).
  split; [exact Hkeys|].
  eapply (@lazy_init_once Z backend module (plan "table_wise" "row_wise")
            (Some true) _ create_context swapped_batch);
    [vm_compute; reflexivity|exact Hkeys].
Defined.

Lemma identity_order_shortcut_witness :
  ∃ self,
    __init__ module (plan "table_wise" "row_wise") (Some true) = Ok self ∧
    (_has_uninitialized_input_dist self = true ∧
     keys batch
       = concat (feature_names <$> (_sharding_type_to_sharding self).*2) ∧
     NoDup (keys batch) ∧
     kjt_wf batch) ∧
    map_result (py_index (keys batch))
      (concat (feature_names <$> (_sharding_type_to_sharding self).*2))
      = Ok (seq 0 (length (keys batch))) ∧
    _features_order (input_dist batch (self, create_context)).1.1 = [] ∧
    input_dist batch (self, create_context)
      = input_dist_identity_permute batch (self, create_context).
Proof.
  eexists. split; [vm_compute; reflexivity|].
  assert (NoDup (keys batch)) as Hnd
    by (apply (bool_decide_unpack _); vm_compute; exact I).
  assert (kjt_wf batch) as Hwf by (split; [split|]; done).
  split; [split_and!; [reflexivity|reflexivity|exact Hnd|exact Hwf]|].
  eapply (@identity_order_shortcut Z backend _ create_context batch);
    [reflexivity|reflexivity|exact Hnd|exact Hwf].
Defined.

End module_witnesses.

(** ** Output distribution read as two passes *)

Section output_passes.
Context {E : Type} `{!Backend E}.

Lemma refers_to_app tensors t idx (sc : InferSequenceShardingContext E) :
  refers_to tensors idx sc → refers_to (tensors ++ [t]) idx sc.
Proof.
  unfold refers_to. destruct (unbucketize_permute_tensor sc); [|done].
  intros [Hidx Hget]. split; [done|]. by apply lookup_app_l_Some.
Qed.

Lemma output_dist_loop_spec (output_dists : list OutputDist) :
  ∀ output ctxs acc (seen : list (InferSequenceShardingContext E)),
    Forall2 (refers_to (unbucketize_tensors acc))
            (unbucketize_tensor_idxs_per_sharding acc) seen →
    match forward_each output_dists output ctxs with
    | Raise e => output_dist_loop output_dists output ctxs acc = Raise e
    | Ok embs =>
        ∃ acc',
          output_dist_loop output_dists output ctxs acc = Ok acc' ∧
          emb_per_sharding acc' = emb_per_sharding acc ++ embs ∧
          features_per_sharding acc'
          = features_per_sharding acc ++ (features <$> take (length embs) ctxs) ∧
          features_before_input_dist_per_sharding acc'
          = features_before_input_dist_per_sharding acc
              ++ (features_before_input_dist <$> take (length embs) ctxs) ∧
          Forall2 (refers_to (unbucketize_tensors acc'))
                  (unbucketize_tensor_idxs_per_sharding acc')
                  (seen ++ take (length embs) ctxs)
    end.
Proof.
  induction output_dists as [|od ods IH]; intros [|o output] [|sc ctxs] acc seen Hseen;
    cbn [forward_each output_dist_loop];
    try (exists acc; by rewrite ?app_nil_r).
  destruct (output_dist_forward (output_dist_sharding od) o sc) as [res|e];
    [|done].
  rewrite !bind_Ok.
  set (acc1 :=
    match unbucketize_permute_tensor sc with
    | None =>
        {| emb_per_sharding := emb_per_sharding acc ++ [res];
           features_before_input_dist_per_sharding :=
             features_before_input_dist_per_sharding acc
               ++ [features_before_input_dist sc];
           features_per_sharding := features_per_sharding acc ++ [features sc];
           unbucketize_tensor_idxs_per_sharding :=
             unbucketize_tensor_idxs_per_sharding acc ++ [(-1)%Z];
           unbucketize_tensors := unbucketize_tensors acc |}
    | Some t =>
        {| emb_per_sharding := emb_per_sharding acc ++ [res];
           features_before_input_dist_per_sharding :=
             features_before_input_dist_per_sharding acc
               ++ [features_before_input_dist sc];
           features_per_sharding := features_per_sharding acc ++ [features sc];
           unbucketize_tensor_idxs_per_sharding :=
             unbucketize_tensor_idxs_per_sharding acc
               ++ [(Z.of_nat (length (unbucketize_tensors acc ++ [t])) - 1)%Z];
           unbucketize_tensors := unbucketize_tensors acc ++ [t] |}
    end).
  assert (Forall2 (refers_to (unbucketize_tensors acc1))
            (unbucketize_tensor_idxs_per_sharding acc1) (seen ++ [sc])) as Hseen1.
  { unfold acc1. destruct (unbucketize_permute_tensor sc) as [t|] eqn:Hsc; cbn.
    - apply Forall2_app.
      + eapply Forall2_impl; [exact Hseen|]. intros. by apply refers_to_app.
      + constructor; [|constructor]. unfold refers_to. rewrite Hsc.
        rewrite length_app. cbn. split; [lia|].
        replace (Z.to_nat (Z.of_nat (length (unbucketize_tensors acc) + 1) - 1))
          with (length (unbucketize_tensors acc)) by lia.
        by apply list_lookup_middle.
    - apply Forall2_app; [done|]. constructor; [|constructor].
      unfold refers_to. by rewrite Hsc. }
  assert (emb_per_sharding acc1 = emb_per_sharding acc ++ [res] ∧
          features_per_sharding acc1 = features_per_sharding acc ++ [features sc] ∧
          features_before_input_dist_per_sharding acc1
          = features_before_input_dist_per_sharding acc
              ++ [features_before_input_dist sc]) as (He1 & Hf1 & Hb1).
  { unfold acc1. by destruct (unbucketize_permute_tensor sc). }
  assert (∀ A (k : OutputDistAcc → result A),
    (match unbucketize_permute_tensor sc with
     | None =>
         Ok (unbucketize_tensors acc,
             unbucketize_tensor_idxs_per_sharding acc ++ [(-1)%Z])
     | Some t =>
         t' ← _fx_unwrap_optional_tensor (Some t);
         let tensors := unbucketize_tensors acc ++ [t'] in
         Ok (tensors,
             unbucketize_tensor_idxs_per_sharding acc
               ++ [(Z.of_nat (length tensors) - 1)%Z])
     end ≫= λ '(tensors, idxs),
       k {| emb_per_sharding := emb_per_sharding acc ++ [res];
            features_before_input_dist_per_sharding :=
              features_before_input_dist_per_sharding acc
                ++ [features_before_input_dist sc];
            features_per_sharding := features_per_sharding acc ++ [features sc];
            unbucketize_tensor_idxs_per_sharding := idxs;
            unbucketize_tensors := tensors |}) = k acc1) as Hstep.
  { intros A k. unfold acc1. by destruct (unbucketize_permute_tensor sc). }
  rewrite Hstep.
  specialize (IH output ctxs acc1 (seen ++ [sc]) Hseen1).
  destruct (forward_each ods output ctxs) as [rest|e]; [|done].
  destruct IH as (acc' & Hrun & He & Hf & Hb & Hseen').
  rewrite bind_Ok. exists acc'. cbn [length take fmap list_fmap].
  rewrite He, Hf, Hb, He1, Hf1, Hb1, <- !app_assoc. split_and!; try done.
  by rewrite <- app_assoc in Hseen'.
Qed.

Lemma output_jt_loop_decoded need_indices perm tensors
    (ctxs : list (InferSequenceShardingContext E)) idxs :
  Forall2 (refers_to tensors) idxs ctxs →
  ∀ embs names jt_dict,
    output_jt_loop embs (features <$> ctxs) names idxs
      (features_before_input_dist <$> ctxs) need_indices perm tensors jt_dict
    = reconstruct_each embs ctxs names need_indices perm jt_dict.
Proof.
  induction 1 as [|idx sc idxs ctxs Hidx _ IH]; intros [|emb embs] [|n names] jt_dict;
    try done.
  cbn [output_jt_loop reconstruct_each fmap list_fmap].
  assert ((if decide (idx ≠ (-1)%Z)
           then Some <$> py_getitem tensors idx else Ok None)
          = Ok (unbucketize_permute_tensor sc)) as ->.
  { unfold refers_to in Hidx.
    destruct (unbucketize_permute_tensor sc) as [t|].
    - destruct Hidx as [Hpos Hget]. rewrite decide_True by lia.
      unfold py_getitem. destruct (Z.leb_spec 0 idx); [|lia].
      by rewrite (getitem_Some _ _ _ Hget).
    - subst idx. by rewrite decide_False by (intros ?; done). }
  rewrite bind_Ok.
  destruct (_construct_jagged_tensors _ _ _ _ _ _ _); [|done].
  rewrite !bind_Ok. apply IH.
Qed.

Lemma reconstruct_each_take need_indices perm :
  ∀ embs (ctxs : list (InferSequenceShardingContext E)) names jt_dict,
    reconstruct_each embs (take (length embs) ctxs) names need_indices perm jt_dict
    = reconstruct_each embs ctxs names need_indices perm jt_dict.
Proof.
  induction embs as [|emb embs IH]; intros [|sc ctxs] [|n names] jt_dict; try done.
  cbn [length take reconstruct_each].
  destruct (_construct_jagged_tensors _ _ _ _ _ _ _); [|done].
  rewrite !bind_Ok. apply IH.
Qed.

(** X1. [output_dist] is its two passes run one after the other: first the
    forward pass of every output distributor, then each strategy's
    reconstruction from the fields of that strategy's own sharding context.
    The bookkeeping of permutations by position ([-1] for none) hands every
    reconstruction exactly the unbucketize permutation of its own context,
    and never raises itself. *)
Theorem output_dist_two_passes
    (self : ShardedQuantEmbeddingCollection)
    (ctx : EmbeddingCollectionContext E)
    (output : list (list (list (list E)))) :
  output_dist self ctx output
  = (embs ← forward_each (_output_dists self) output (sharding_contexts ctx);
     reconstruct_each embs (sharding_contexts ctx)
       (_embedding_names_per_rank_per_sharding self) (_need_indices self)
       (_features_to_permute_indices self) ∅).
Proof.
  unfold output_dist.
  pose proof (output_dist_loop_spec (_output_dists self) output
                (sharding_contexts ctx) (mkAcc [] [] [] [] []) []
                ltac:(constructor)) as Hloop.
  destruct (forward_each (_output_dists self) output (sharding_contexts ctx))
    as [embs|e]; [|by rewrite Hloop].
  destruct Hloop as (acc' & -> & He & Hf & Hb & Hseen).
  cbn in He, Hf, Hb, Hseen. rewrite !bind_Ok, He, Hf, Hb.
  unfold output_jt_dict.
  rewrite (output_jt_loop_decoded _ _ _ _ _ Hseen).
  apply reconstruct_each_take.
Qed.

End output_passes.

(** ** The lookup pass *)

Section compute_shapes.
Context {E : Type} `{!Backend E}.

Lemma row_length {A} (stride : nat) (t : list A) k :
  (k + 1) * stride ≤ length t → length (row stride t k) = stride.
Proof.
  intros Hk. unfold row. rewrite length_take, length_drop. lia.
Qed.

(** [view(-1, dim)] only regroups: the rows have [dim] entries each and,
    laid end to end, are the tensor that was viewed. *)
Lemma view_rows_regroups {A} (t : list A) (dim : nat) rows :
  view_rows t dim = Ok rows →
  concat rows = t ∧ Forall (λ r, length r = dim) rows.
Proof.
  unfold view_rows. case_decide as Hdim; [done|].
  case_decide as Hmod; [|done]. intros [= <-].
  pose proof (Nat.div_mod_eq (length t) dim) as Hdiv.
  rewrite Hmod, Nat.add_0_r in Hdiv.
  split.
  - rewrite concat_rows. apply take_ge. lia.
  - apply Forall_fmap, Forall_seq. intros k Hk. cbn.
    apply row_length. nia.
Qed.

Lemma map_result_Forall2 {A B} (g : A → result B) (l : list A) (r : list B) :
  map_result g l = Ok r → Forall2 (λ a b, g a = Ok b) l r.
Proof.
  revert r. induction l as [|a l IH]; intros r; cbn [map_result].
  - intros [= <-]. constructor.
  - intros (b & Hb & (bs & Hbs & [= <-])%bind_inv)%bind_inv.
    constructor; [done|by apply IH].
Qed.

Lemma compute_loop_spec (dim : nat) (lookups : list Lookup) :
  ∀ dist_input ret r,
    compute_loop dim lookups dist_input ret = Ok r →
    ∃ new,
      r = ret ++ new ∧
      length new = length lookups `min` length dist_input ∧
      ∀ i views, new !! i = Some views →
        ∃ lookup fs outs,
          lookups !! i = Some lookup ∧ dist_input !! i = Some fs ∧
          lookup_forward (lookup_sharding lookup) (lookup_fused_params lookup) fs
            = Ok outs ∧
          Forall2 (λ o v, concat v = o ∧ Forall (λ r, length r = dim) v)
                  outs views.
Proof.
  induction lookups as [|lookup lookups IH]; intros [|fs dist_input] ret r;
    cbn [compute_loop];
    try (intros [= <-]; exists []; by rewrite app_nil_r).
  intros (outs & Houts & (views & Hviews & Hrest)%bind_inv)%bind_inv.
  apply IH in Hrest as (new & -> & Hlen & Hnew).
  exists (views :: new). rewrite <- app_assoc. split_and!; [done|cbn; lia|].
  intros [|i] views'; cbn.
  - intros [= <-]. exists lookup, fs, outs. split_and!; try done.
    apply map_result_Forall2 in Hviews.
    eapply Forall2_impl; [exact Hviews|].
    intros o v Hv. by apply view_rows_regroups.
  - apply Hnew.
Qed.

(** X2. [compute] returns one entry per pair of the zip of lookups and
    distributed inputs, however many of each there are; entry [i] is lookup
    [i]'s output on input [i], every tensor regrouped into rows of exactly
    [_embedding_dim] entries with no entry lost, added or moved. *)
Theorem compute_regroups_lookup_outputs
    (self : ShardedQuantEmbeddingCollection)
    (ctx : EmbeddingCollectionContext E)
    (dist_input : list (list (KeyedJaggedTensor E)))
    (ret : list (list (list (list E)))) :
  compute self ctx dist_input = Ok ret →
  length ret = length (_lookups self) `min` length dist_input ∧
  ∀ i views, ret !! i = Some views →
    ∃ lookup fs outs,
      _lookups self !! i = Some lookup ∧ dist_input !! i = Some fs ∧
      lookup_forward (lookup_sharding lookup) (lookup_fused_params lookup) fs
        = Ok outs ∧
      Forall2 (λ o v, concat v = o ∧
                      Forall (λ r, length r = _embedding_dim self) v)
              outs views.
Proof.
  unfold compute. intros (new & -> & Hlen & Hnew)%compute_loop_spec.
  split; [done|]. exact Hnew.
Qed.

End compute_shapes.

(** ** Copying before the first batch *)

Section copy_first.
Context {E : Type} `{!Backend E}.
Implicit Types (s self : ShardedQuantEmbeddingCollection)
               (c ctx : EmbeddingCollectionContext E)
               (f : KeyedJaggedTensor E).

Lemma copy_run s :
  copy s
  = (if _has_uninitialized_output_dist s
     then set_has_uninitialized_output_dist false
            (set_output_dists
               (_output_dists s
                  ++ (create_output_dist <$> (_sharding_type_to_sharding s).*2)) s)
     else s,
     Ok tt).
Proof.
  unfold copy. rewrite get_bind.
  destruct (_has_uninitialized_output_dist s); [|done].
  by rewrite (prog_bind_Ok _ _ _ _ _ (_create_output_dist_run s)).
Qed.

(** With the input side initialised, the head of [input_dist] can only
    still create the output distributors. *)
Lemma ensure_dists_input_ready s c f :
  _has_uninitialized_input_dist s = false →
  ∃ s1,
    ensure_dists f (s, c) = ((s1, c), Ok tt) ∧
    _has_uninitialized_input_dist s1 = false ∧
    _has_uninitialized_output_dist s1 = false ∧
    _sharding_type_to_sharding s1 = _sharding_type_to_sharding s ∧
    _features_order s1 = _features_order s ∧
    _feature_splits s1 = _feature_splits s ∧
    _input_dists s1 = _input_dists s ∧
    _output_dists s1
      = if _has_uninitialized_output_dist s
        then _output_dists s
               ++ (create_output_dist <$> (_sharding_type_to_sharding s).*2)
        else _output_dists s.
Proof.
  intros Hi. unfold ensure_dists.
  rewrite on_self_get_bind, Hi.
  rewrite (prog_bind_Ok _ _ (s, c) (s, c) tt eq_refl), on_self_get_bind.
  destruct (_has_uninitialized_output_dist s) eqn:Ho.
  - erewrite prog_bind_Ok; last first.
    { rewrite on_self_run, _create_output_dist_run. reflexivity. }
    rewrite on_self_run. cbn [modify fst snd].
    eexists. split; [reflexivity|]. by destruct s.
  - exists s. by rewrite Ho.
Qed.

(** X3. The output distributors are created once, by whichever of [copy]
    and [input_dist] runs first.  On a constructed module [copy] creates
    one per strategy and leaves the input side untouched; a second [copy]
    changes nothing; the first [input_dist] after it creates the input
    distributors only, and the output distributors stay as [copy] made
    them. *)
Theorem output_dists_created_once
    (module : QuantEmbeddingCollection)
    (table_name_to_parameter_sharding : list (string * ParameterSharding))
    (fused_params : option FusedParams)
    (self0 : ShardedQuantEmbeddingCollection) :
  __init__ module table_name_to_parameter_sharding fused_params = Ok self0 →
  let shardings := (_sharding_type_to_sharding self0).*2 in
  ∃ self1,
    copy self0 = (self1, Ok tt) ∧
    _output_dists self1 = create_output_dist <$> shardings ∧
    _input_dists self1 = [] ∧
    _has_uninitialized_input_dist self1 = true ∧
    copy self1 = (self1, Ok tt) ∧
    ∀ f c self2 c2 r,
      input_dist f (self1, c) = ((self2, c2), Ok r) →
      _output_dists self2 = create_output_dist <$> shardings ∧
      _input_dists self2 = create_input_dist <$> shardings ∧
      copy self2 = (self2, Ok tt).
Proof.
  intros (Hi & Ho & Hin & Hout)%init_fresh shardings.
  eexists. split; [rewrite copy_run, Ho; reflexivity|].
  set (self1 := set_has_uninitialized_output_dist false _).
  assert (_has_uninitialized_output_dist self1 = false) as Ho1
    by (by destruct self0).
  assert (_has_uninitialized_input_dist self1 = true) as Hi1
    by (by destruct self0).
  assert (_output_dists self1 = create_output_dist <$> shardings) as Hod1.
  { unfold self1, shardings. destruct self0; cbn in *. by rewrite Hout. }
  assert (_input_dists self1 = []) as Hid1 by (by destruct self0).
  assert (_sharding_type_to_sharding self1 = _sharding_type_to_sharding self0)
    as Hsh1 by (by destruct self0).
  split; [exact Hod1|]. split; [exact Hid1|]. split; [exact Hi1|].
  split; [by rewrite copy_run, Ho1|].
  intros f c self2 c2 r Hrun. rewrite input_dist_unfold in Hrun.
  destruct (map_result (py_index (keys f))
              (concat (feature_names <$> (_sharding_type_to_sharding self1).*2)))
    as [order|e] eqn:Hidx.
  - destruct (ensure_dists_first self1 c f order Hi1 Hidx)
      as (s1 & Hens & Hi2 & Ho2 & Hsh & _ & _ & Hid & Hod).
    rewrite Hens in Hrun.
    assert (self2 = s1) as ->.
    { destruct (match _features_order s1 with
                | [] => Ok f
                | _ => kjt_permute f (_features_order s1) end) as [f'|];
        [|by injection Hrun].
      pose proof (distribute_self s1 f' s1 c) as Hself.
      by rewrite Hrun in Hself. }
    rewrite Ho1 in Hod. rewrite Hid1, Hsh1 in Hid.
    split_and!; [by rewrite Hod|done|by rewrite copy_run, Ho2].
  - destruct (ensure_dists_Raise self1 c f e Hi1 Hidx) as [s1 Hens].
    by rewrite Hens in Hrun.
Qed.

End copy_first.

(** ** A first batch that lacks a feature *)

Section missing_feature.
Context {E : Type} `{!Backend E}.
Implicit Types (s self : ShardedQuantEmbeddingCollection)
               (c ctx : EmbeddingCollectionContext E)
               (f : KeyedJaggedTensor E).

Lemma py_index_missing (l : list string) x :
  x ∉ l → py_index l x = Raise ValueError.
Proof.
  intros Hx. unfold py_index.
  destruct (list_find (λ y, y = x) l) as [[i y]|] eqn:Hfind; [|done].
  apply list_find_Some in Hfind as (Hi & -> & _).
  by apply list_elem_of_lookup_2 in Hi.
Qed.

Lemma py_index_Raise (l : list string) x e : py_index l x = Raise e → e = ValueError.
Proof.
  unfold py_index. destruct (list_find _ l) as [[i y]|]; [done|]. by intros [= <-].
Qed.

Lemma map_py_index_missing (l names : list string) x :
  x ∈ names → x ∉ l → map_result (py_index l) names = Raise ValueError.
Proof.
  intros Hin Hx. induction names as [|n names IH]; [by apply elem_of_nil in Hin|].
  cbn [map_result].
  destruct (py_index l n) as [i|e] eqn:Hn.
  - rewrite bind_Ok. apply elem_of_cons in Hin as [->|Hin].
    + by rewrite py_index_missing in Hn.
    + by rewrite IH.
  - by rewrite (py_index_Raise _ _ _ Hn).
Qed.

(** The index loop writes nothing but the feature order. *)
Lemma index_loop_state (input_feature_names : list string) names : ∀ s,
  ∃ order,
    (foldP (add_feature_index input_feature_names) names tt s).1
    = set_features_order order s.
Proof.
  induction names as [|n names IH]; intros s; cbn [foldP].
  - exists (_features_order s). by destruct s.
  - destruct (py_index input_feature_names n) as [i|e] eqn:Hn.
    + rewrite (prog_bind_Ok _ _ _ _ _ (add_feature_index_Ok _ _ _ _ _ Hn)).
      destruct (IH (set_features_order (_features_order s ++ [i]) s))
        as [order ->].
      exists order. by destruct s.
    + rewrite (prog_bind_Raise _ _ _ _ _ (add_feature_index_Raise _ _ _ _ _ Hn)).
      exists (_features_order s). by destruct s.
Qed.

(** When a feature name is missing from the input keys, [_create_input_dist]
    raises after it has appended the input distributors. *)
Lemma _create_input_dist_Raise_state input_feature_names s e :
  map_result (py_index input_feature_names)
    (concat (feature_names <$> (_sharding_type_to_sharding s).*2)) = Raise e →
  ∃ order,
    _create_input_dist input_feature_names s
    = (set_features_order order
         (set_feature_splits
            ((λ sh, length (feature_names sh))
               <$> (_sharding_type_to_sharding s).*2)
            (set_input_dists
               (_input_dists s
                  ++ (create_input_dist <$> (_sharding_type_to_sharding s).*2))
               s)),
       Raise e).
Proof.
  intros Hidx. unfold _create_input_dist.
  rewrite modify_bind, get_bind.
  rewrite (prog_bind_Ok _ _ _ _ _ (create_input_dists_loop _ _ _)).
  rewrite modify_bind.
  match goal with
  | |- context [(foldP (add_feature_index _) ?names tt ≫= _) ?st] =>
      destruct (index_loop_Raise input_feature_names names st e Hidx) as [s' Hs'];
      destruct (index_loop_state input_feature_names names st) as [order Hst]
  end.
  rewrite Hs' in Hst. cbn in Hst. subst s'.
  rewrite (prog_bind_Raise _ _ _ _ _ Hs').
  exists order. by destruct s.
Qed.

Lemma ensure_dists_Raise_state s c f e :
  _has_uninitialized_input_dist s = true →
  map_result (py_index (keys f))
    (concat (feature_names <$> (_sharding_type_to_sharding s).*2)) = Raise e →
  ∃ s1,
    ensure_dists f (s, c) = ((s1, c), Raise e) ∧
    _has_uninitialized_input_dist s1 = true ∧
    _input_dists s1
    = _input_dists s ++ (create_input_dist <$> (_sharding_type_to_sharding s).*2).
Proof.
  intros Hi Hidx. unfold ensure_dists.
  rewrite on_self_get_bind, Hi.
  destruct (_create_input_dist_Raise_state _ _ _ Hidx) as [order Hs'].
  eexists. split.
  - erewrite prog_bind_Raise; [reflexivity|].
    erewrite prog_bind_Raise; [reflexivity|].
    by rewrite on_self_run, Hs'.
  - by destruct s.
Qed.

Lemma split_from_length {A} (f : KeyedJaggedTensor A) group_sizes :
  ∀ start l, split_from f start group_sizes = Ok l →
             length l = length group_sizes.
Proof.
  induction group_sizes as [|n rest IH]; intros start l; cbn [split_from].
  - by intros [= <-].
  - case_decide; [|done].
    intros (tl & Htl & [= <-])%bind_inv. cbn. by rewrite (IH _ _ Htl).
Qed.

Lemma kjt_split_length {A} (f : KeyedJaggedTensor A) group_sizes l :
  kjt_split f group_sizes = Ok l → length l = length group_sizes.
Proof.
  unfold kjt_split. destruct (negb (kjt_consistent f)); [done|].
  apply split_from_length.
Qed.

(** The loop over the input distributors cannot get past the last feature
    group. *)
Lemma distribute_overrun self f fbs : ∀ n a ret s c,
  a ≤ length fbs < a + n →
  ∃ c' e,
    foldP (distribute_to self f fbs) (seq a n) ret (s, c) = ((s, c'), Raise e).
Proof.
  induction n as [|n IH]; intros a ret s c Ha; [lia|].
  cbn [seq foldP].
  destruct (distribute_to self f fbs ret a (s, c)) as [[s1 c1] [ret1|e]] eqn:Hstep.
  - pose proof Hstep as Hs.
    apply distribute_to_Ok in Hs as (d & fi & ri & u & _ & Hfi & _ & -> & _).
    apply lookup_lt_Some in Hfi.
    rewrite (prog_bind_Ok _ _ _ _ _ Hstep).
    apply IH. lia.
  - pose proof (distribute_to_self self f fbs ret a s c) as Hs.
    rewrite Hstep in Hs. cbn in Hs. subst s1.
    rewrite (prog_bind_Raise _ _ _ _ _ Hstep). by exists c1, e.
Qed.

Lemma distribute_raises self f s c :
  length (_feature_splits self) < length (_input_dists self) →
  ∃ c' e, distribute self f (s, c) = ((s, c'), Raise e).
Proof.
  intros Hlen. unfold distribute. rewrite lift_bind.
  destruct (kjt_split f (_feature_splits self)) as [fbs|e] eqn:Hsplit.
  - apply distribute_overrun. apply kjt_split_length in Hsplit. lia.
  - by exists c, e.
Qed.

(** X4. A first batch that lacks one of the strategies' features makes
    [input_dist] raise [ValueError] with the module half initialised: the
    input distributors are already appended, yet the input side still
    counts as uninitialised, so the next call will append them again. *)
Theorem missing_feature_half_initialises
    (module : QuantEmbeddingCollection)
    (table_name_to_parameter_sharding : list (string * ParameterSharding))
    (fused_params : option FusedParams)
    (self0 : ShardedQuantEmbeddingCollection)
    (ctx : EmbeddingCollectionContext E)
    (features : KeyedJaggedTensor E) (name : string) :
  __init__ module table_name_to_parameter_sharding fused_params = Ok self0 →
  name ∈ concat (feature_names <$> (_sharding_type_to_sharding self0).*2) →
  name ∉ keys features →
  ∃ self1,
    input_dist features (self0, ctx) = ((self1, ctx), Raise ValueError) ∧
    _has_uninitialized_input_dist self1 = true ∧
    _input_dists self1
    = create_input_dist <$> (_sharding_type_to_sharding self0).*2 ∧
    over_provisioned self1.
Proof.
  intros (Hi & Ho & Hin & Hout)%init_fresh Hname Hmiss.
  pose proof (map_py_index_missing _ _ _ Hname Hmiss) as Hidx.
  destruct (ensure_dists_Raise_state self0 ctx features _ Hi Hidx)
    as (s1 & Hens & Hi1 & Hid1).
  rewrite Hin in Hid1. cbn in Hid1.
  exists s1. split_and!; [by rewrite input_dist_unfold, Hens|done|done|].
  unfold over_provisioned. rewrite Hi1, Hid1.
  destruct ((_sharding_type_to_sharding self0).*2) as [|sh shs] eqn:Hsh; [|done].
  cbn in Hname. by apply elem_of_nil in Hname.
Qed.

(** X5. An over-provisioned module never completes [input_dist] again:
    whatever the batch and context, the call raises and leaves the module
    over-provisioned.  After a first batch that lacked a feature the module
    is therefore unusable for good. *)
Theorem over_provisioned_never_recovers
    (self : ShardedQuantEmbeddingCollection)
    (ctx : EmbeddingCollectionContext E)
    (features : KeyedJaggedTensor E) :
  over_provisioned self →
  ∃ self' ctx' e,
    input_dist features (self, ctx) = ((self', ctx'), Raise e) ∧
    over_provisioned self'.
Proof.
  unfold over_provisioned. intros Hover. rewrite input_dist_unfold.
  destruct (_has_uninitialized_input_dist self) eqn:Hi.
  - destruct (map_result (py_index (keys features))
                (concat (feature_names <$> (_sharding_type_to_sharding self).*2)))
      as [order|e] eqn:Hidx.
    + destruct (ensure_dists_first self ctx features order Hi Hidx)
        as (s1 & -> & Hi1 & _ & _ & _ & Hsp & Hid & _).
      assert (length (_feature_splits s1) < length (_input_dists s1)) as Hlen.
      { rewrite Hsp, Hid, length_app, !length_fmap.
        destruct (_input_dists self); [done|cbn; lia]. }
      destruct (match _features_order s1 with
                | [] => Ok features
                | _ => kjt_permute features (_features_order s1) end) as [f'|e].
      * destruct (distribute_raises s1 f' s1 ctx Hlen) as (c' & e & ->).
        exists s1, c', e. by rewrite Hi1.
      * exists s1, ctx, e. by rewrite Hi1.
    + destruct (ensure_dists_Raise_state self ctx features e Hi Hidx)
        as (s1 & -> & Hi1 & Hid1).
      exists s1, ctx, e. split; [done|]. rewrite Hi1, Hid1.
      destruct (_input_dists self); [done|done].
  - destruct (ensure_dists_input_ready self ctx features Hi)
      as (s1 & -> & Hi1 & _ & _ & _ & Hsp & Hid & _).
    assert (length (_feature_splits s1) < length (_input_dists s1)) as Hlen
      by (by rewrite Hsp, Hid).
    destruct (match _features_order s1 with
              | [] => Ok features
              | _ => kjt_permute features (_features_order s1) end) as [f'|e].
    + destruct (distribute_raises s1 f' s1 ctx Hlen) as (c' & e & ->).
      exists s1, c', e. by rewrite Hi1.
    + exists s1, ctx, e. by rewrite Hi1.
Qed.

End missing_feature.

(** ** What a successful reconstruction contains *)

Section reconstruction_contents.
Context {E : Type}.
Implicit Types (f : KeyedJaggedTensor E) (ret : gmap string (JaggedTensor E)).

Lemma concat_segments {A} sizes : ∀ t : list A,
  sum_list sizes = length t → concat (segments t sizes) = t.
Proof.
  induction sizes as [|n sizes IH]; intros t; cbn.
  - intros Hlen. symmetry. by apply nil_length_inv.
  - intros Hlen. rewrite IH by (rewrite length_drop; lia).
    apply take_drop.
Qed.

Lemma snd_enumerate_from {A} (l : list A) s : (zip (seq s (length l)) l).*2 = l.
Proof. apply snd_zip. by rewrite length_seq. Qed.

(** The keys a pass of assignments leaves in the dictionary. *)
Lemma assign_dom (mk : nat → result (JaggedTensor E)) (l : list (nat * string)) :
  ∀ ret ret',
    for_each (λ ret '(i, key), jt ← mk i; Ok (<[key := jt]> ret)) l ret
      = Ok ret' →
    dom ret' = dom ret ∪ list_to_set l.*2.
Proof.
  induction l as [|[i key] l IH]; intros ret ret'; cbn [for_each].
  - intros [= <-]. set_solver.
  - intros (ret1 & (jt & _ & [= <-])%bind_inv & Hrest)%bind_inv.
    rewrite (IH _ _ Hrest), dom_insert_L. set_solver.
Qed.

Lemma assign_keys_dom (mk : nat → result (JaggedTensor E)) ks ret ret' :
  assign_keys mk ks ret = Ok ret' → dom ret' = dom ret ∪ list_to_set ks.
Proof.
  unfold assign_keys, enumerate. intros Hrun%assign_dom.
  by rewrite snd_enumerate_from in Hrun.
Qed.

Lemma assign_other (mk : nat → result (JaggedTensor E)) (l : list (nat * string)) key :
  ∀ ret ret',
    for_each (λ ret '(i, key), jt ← mk i; Ok (<[key := jt]> ret)) l ret
      = Ok ret' →
    key ∉ l.*2 → ret' !! key = ret !! key.
Proof.
  induction l as [|[i k] l IH]; intros ret ret'; cbn [for_each].
  - by intros [= <-].
  - intros (ret1 & (jt & _ & [= <-])%bind_inv & Hrest)%bind_inv Hnotin.
    cbn in Hnotin. apply not_elem_of_cons in Hnotin as [Hne Hnotin].
    rewrite (IH _ _ Hrest Hnotin). by rewrite lookup_insert_ne.
Qed.

Lemma assign_from_NoDup (mk : nat → result (JaggedTensor E)) ks :
  NoDup ks →
  ∀ s ret ret',
    for_each (λ ret '(i, key), jt ← mk i; Ok (<[key := jt]> ret))
             (zip (seq s (length ks)) ks) ret = Ok ret' →
    ∀ i key, ks !! i = Some key →
      ∃ jt, mk (s + i) = Ok jt ∧ ret' !! key = Some jt.
Proof.
  induction 1 as [|key0 ks Hnotin Hnd IH]; intros s ret ret';
    cbn [length seq zip zip_with for_each].
  - intros _ i key Hi. done.
  - intros (ret1 & (jt & Hjt & [= <-])%bind_inv & Hrest)%bind_inv.
    intros [|i] key; cbn.
    + intros [= <-]. exists jt. rewrite Nat.add_0_r. split; [done|].
      rewrite (assign_other _ _ _ _ _ Hrest) by (by rewrite snd_enumerate_from).
      by rewrite lookup_insert_eq.
    + intros Hi. destruct (IH (S s) _ _ Hrest i key Hi) as (jt' & Hjt' & Hget).
      exists jt'. split; [|done]. by rewrite Nat.add_succ_r.
Qed.

(** With distinct keys, the entry of key number [i] is what [mk i] made. *)
Lemma assign_keys_NoDup (mk : nat → result (JaggedTensor E)) ks ret ret' :
  NoDup ks →
  assign_keys mk ks ret = Ok ret' →
  ∀ i key, ks !! i = Some key →
    ∃ jt, mk i = Ok jt ∧ ret' !! key = Some jt.
Proof.
  intros Hnd Hrun i key Hi.
  by apply (assign_from_NoDup mk ks Hnd 0 ret ret' Hrun i key).
Qed.

(** X6. What a successful row-wise reconstruction holds: an entry for
    every key of [features_before_input_dist] and for no other key; and,
    the keys being distinct, the values of the entries laid end to end in
    key order are the unbucketized rows, one per entry of the permutation:
    no row is lost, repeated or moved between keys. *)
Theorem rw_conserves_rows
    (embeddings : list (list (list E)))
    (features_before_input_dist : KeyedJaggedTensor E)
    (need_indices : bool) (unbucketize_tensor : list Z)
    (ret : gmap string (JaggedTensor E)) :
  _construct_jagged_tensors_rw embeddings features_before_input_dist
    need_indices unbucketize_tensor = Ok ret →
  NoDup (keys features_before_input_dist) →
  dom ret = list_to_set (keys features_before_input_dist) ∧
  ∃ unbucketized_embs,
    index_select (concat embeddings) unbucketize_tensor = Ok unbucketized_embs ∧
    concat ((λ key, default [] (jt_values <$> ret !! key))
              <$> keys features_before_input_dist)
    = unbucketized_embs.
Proof.
  unfold _construct_jagged_tensors_rw.
  intros (all & H1 & (u & H2 & (es & H3 & (ll & H4 &
           (vl & Hvl & Hrun)%bind_inv)%bind_inv)%bind_inv)%bind_inv)%bind_inv Hnd.
  apply torch_split_Ok in H3 as [Hsum ->].
  assert (all = concat embeddings) as ->.
  { unfold torch_concat in H1. destruct embeddings; [done|]. by injection H1. }
  split.
  - rewrite (assign_keys_dom _ _ _ _ Hrun). set_solver.
  - exists u. split; [done|].
    etransitivity; [|exact (concat_segments _ u Hsum)]. f_equal.
    apply list_eq. intros i. rewrite list_lookup_fmap.
    destruct (keys features_before_input_dist !! i) as [key|] eqn:Hi; cbn.
    + destruct (assign_keys_NoDup _ _ _ _ Hnd Hrun i key Hi)
        as (jt & (v & Hv & Hrest)%bind_inv & ->).
      apply bind_inv in Hrest as (l & _ & (w & _ & [= <-])%bind_inv).
      cbn. by apply getitem_Ok in Hv.
    + symmetry. apply lookup_ge_None.
      rewrite segments_length, length_per_key_length.
      by apply lookup_ge_None.
Qed.

End reconstruction_contents.

Section table_wise_contents.
Context {E : Type}.
Implicit Types (f : KeyedJaggedTensor E) (ret : gmap string (JaggedTensor E)).

Lemma tw_destination_Ok embeddings features need_indices ret i ret' :
  tw_destination embeddings features need_indices ret i = Ok ret' →
  ∃ fi, features !! i = Some fi ∧ dom ret' = dom ret ∪ list_to_set (keys fi).
Proof.
  unfold tw_destination.
  intros (emb & _ & (fi & Hfi & (ll & _ & (el & _ & Hrun)%bind_inv)%bind_inv)%bind_inv)%bind_inv.
  exists fi. split; [by apply getitem_Ok|].
  destruct need_indices.
  - apply bind_inv in Hrun as (vl & _ & Hrun). by apply assign_keys_dom in Hrun.
  - by apply assign_keys_dom in Hrun.
Qed.

Lemma tw_loop_Ok embeddings features need_indices : ∀ n a ret ret',
  for_each (tw_destination embeddings features need_indices) (seq a n) ret
    = Ok ret' →
  (n ≠ 0 → a + n ≤ length features) ∧
  dom ret' = dom ret ∪ list_to_set (concat (keys <$> take n (drop a features))).
Proof.
  induction n as [|n IH]; intros a ret ret'; cbn [seq for_each].
  - intros [= <-]. split; [done|]. cbn. set_solver.
  - intros (ret1 & (fa & Hfa & Hdom1)%tw_destination_Ok & Hrest)%bind_inv.
    destruct (IH _ _ _ Hrest) as [Hlen Hdom].
    split.
    + intros _. destruct n; [|lia]. apply lookup_lt_Some in Hfa. lia.
    + rewrite Hdom, Hdom1, (drop_S _ _ _ Hfa). cbn. set_solver.
Qed.

Lemma for_each_ext {S A} (body body' : S → A → result S) (l : list A) :
  (∀ s a, a ∈ l → body s a = body' s a) →
  ∀ s, for_each body l s = for_each body' l s.
Proof.
  induction l as [|a l IH]; intros Hext s; [done|].
  cbn [for_each]. rewrite Hext by (by left).
  destruct (body' s a) as [s'|]; [|done].
  rewrite !bind_Ok. apply IH. intros s0 a0 Ha0. apply Hext. by right.
Qed.

(** X7. What a successful table-wise reconstruction needs and holds: there
    is a feature collection for every raw tensor, the result has an entry
    for exactly the keys of those collections, and any collections beyond
    the number of raw tensors play no part. *)
Theorem tw_keys_and_bounds
    (embeddings : list (list (list E))) (features : list (KeyedJaggedTensor E))
    (need_indices : bool) (ret : gmap string (JaggedTensor E)) :
  _construct_jagged_tensors_tw embeddings features need_indices = Ok ret →
  length embeddings ≤ length features ∧
  dom ret
  = list_to_set (concat (keys <$> take (length embeddings) features)) ∧
  ∀ surplus,
    _construct_jagged_tensors_tw embeddings (features ++ surplus) need_indices
    = Ok ret.
Proof.
  unfold _construct_jagged_tensors_tw. intros Hrun.
  destruct (tw_loop_Ok _ _ _ _ _ _ _ Hrun) as [Hlen Hdom].
  assert (length embeddings ≤ length features) as Hle.
  { destruct embeddings; [cbn; lia|]. apply Hlen. done. }
  split_and!; [done|rewrite Hdom; cbn; set_solver|].
  intros surplus. rewrite <- Hrun. apply for_each_ext.
  intros s i Hi%elem_of_seq. unfold tw_destination, getitem.
  by rewrite lookup_app_l by lia.
Qed.

End table_wise_contents.

(** ** Routing by feature name *)

Section routing.
Context {E : Type} `{!Backend E}.
Implicit Types (s self : ShardedQuantEmbeddingCollection)
               (c ctx : EmbeddingCollectionContext E)
               (f : KeyedJaggedTensor E).

Lemma py_index_Ok (l : list string) x i :
  py_index l x = Ok i →
  l !! i = Some x ∧ ∀ i', i' < i → l !! i' ≠ Some x.
Proof.
  unfold py_index.
  destruct (list_find (λ y, y = x) l) as [[j y]|] eqn:Hfind; [|done].
  intros [= <-]. apply list_find_Some in Hfind as (Hj & -> & Hfirst).
  split; [done|]. intros i' Hlt Hi'. by apply (Hfirst i' x).
Qed.

Lemma sum_list_lengths {A} (ls : list (list A)) :
  sum_list (length <$> ls) = length (concat ls).
Proof.
  induction ls as [|l ls IH]; [done|]. cbn. rewrite length_app. by rewrite <- IH.
Qed.

(** A successful head of [input_dist] lowers both flags and leaves the
    context alone. *)
Lemma ensure_dists_Ok s c f s1 c1 :
  ensure_dists f (s, c) = ((s1, c1), Ok tt) →
  c1 = c ∧
  _has_uninitialized_input_dist s1 = false ∧
  _has_uninitialized_output_dist s1 = false.
Proof.
  destruct (_has_uninitialized_input_dist s) eqn:Hi.
  - destruct (map_result (py_index (keys f))
                (concat (feature_names <$> (_sharding_type_to_sharding s).*2)))
      as [order|e] eqn:Hidx.
    + destruct (ensure_dists_first s c f order Hi Hidx) as (s' & -> & ? & ? & _).
      by intros [= <- <-].
    + destruct (ensure_dists_Raise s c f e Hi Hidx) as (s' & ->). done.
  - destruct (ensure_dists_input_ready s c f Hi) as (s' & -> & ? & ? & _).
    by intros [= <- <-].
Qed.

(** What a first call that returns has stored. *)
Lemma input_dist_first_Ok s c f s1 c1 r :
  _has_uninitialized_input_dist s = true →
  input_dist f (s, c) = ((s1, c1), Ok r) →
  ∃ idx,
    map_result (py_index (keys f))
      (concat (feature_names <$> (_sharding_type_to_sharding s).*2)) = Ok idx ∧
    _features_order s1 = (if decide (idx = seq 0 (length idx)) then [] else idx) ∧
    _feature_splits s1
    = (λ sh, length (feature_names sh)) <$> (_sharding_type_to_sharding s).*2.
Proof.
  intros Hi Hrun. rewrite input_dist_unfold in Hrun.
  destruct (map_result (py_index (keys f))
              (concat (feature_names <$> (_sharding_type_to_sharding s).*2)))
    as [idx|e] eqn:Hidx.
  - destruct (ensure_dists_first s c f idx Hi Hidx)
      as (s' & Hens & _ & _ & _ & Hord & Hsp & _).
    rewrite Hens in Hrun.
    assert (s1 = s') as ->.
    { destruct (match _features_order s' with
                | [] => Ok f
                | _ => kjt_permute f (_features_order s') end) as [f'|];
        [|by injection Hrun].
      pose proof (distribute_self s' f' s' c) as Hself.
      by rewrite Hrun in Hself. }
    by exists idx.
  - destruct (ensure_dists_Raise s c f e Hi Hidx) as [s' Hens].
    by rewrite Hens in Hrun.
Qed.

(** X8. The routing a first call fixes goes by feature name.  With the
    strategies' feature names listed in strategy order, the feature order in
    force (the stored one, or the identity when the stored one is empty)
    sends position [j] to the first position of name [j] among the keys of
    the first batch, wherever that key stood and whatever other keys the
    batch carries; and the feature splits add up to the number of names. *)
Theorem feature_order_routes_by_name
    (module : QuantEmbeddingCollection)
    (table_name_to_parameter_sharding : list (string * ParameterSharding))
    (fused_params : option FusedParams)
    (self0 self1 : ShardedQuantEmbeddingCollection)
    (ctx0 ctx1 : EmbeddingCollectionContext E)
    (features : KeyedJaggedTensor E)
    (dist_input : list (list (KeyedJaggedTensor E))) :
  __init__ module table_name_to_parameter_sharding fused_params = Ok self0 →
  input_dist features (self0, ctx0) = ((self1, ctx1), Ok dist_input) →
  let names := concat (feature_names <$> (_sharding_type_to_sharding self0).*2) in
  let order := match _features_order self1 with
               | [] => seq 0 (length names)
               | o => o
               end in
  sum_list (_feature_splits self1) = length names ∧
  length order = length names ∧
  ∀ j name, names !! j = Some name →
    ∃ i, order !! j = Some i ∧ keys features !! i = Some name ∧
         ∀ i', i' < i → keys features !! i' ≠ Some name.
Proof.
  intros (Hi & _)%init_fresh Hrun names order.
  destruct (input_dist_first_Ok _ _ _ _ _ _ Hi Hrun) as (idx & Hidx & Hord & Hsp).
  apply map_result_Forall2 in Hidx. fold names in Hidx.
  pose proof (Forall2_length _ _ _ Hidx) as Hlen.
  assert (order = idx) as ->.
  { unfold order. rewrite Hord. case_decide as Hid.
    - rewrite Hlen. by symmetry.
    - destruct idx; [done|done]. }
  split_and!; [|done|].
  - rewrite Hsp. unfold names. rewrite <- sum_list_lengths.
    by rewrite <- (list_fmap_compose feature_names length).
  - intros j name Hj.
    destruct (Forall2_lookup_l _ _ _ _ _ Hidx Hj) as (i & Hi' & Hpy).
    exists i. split; [done|]. by apply py_index_Ok.
Qed.

(** X9. Repeating a forward pass repeats its result.  When [forward]
    returns on a batch, running it again on the same batch from the state
    it left returns the same mapping and leaves that state as it is: the
    lazy initialisation of the first pass does not show in the result. *)
Theorem forward_repeatable
    (self0 self1 : ShardedQuantEmbeddingCollection)
    (features : KeyedJaggedTensor E)
    (jt_dict : gmap string (JaggedTensor E)) :
  forward features self0 = (self1, Ok jt_dict) →
  forward features self1 = (self1, Ok jt_dict).
Proof.
  unfold forward. rewrite !input_dist_unfold.
  destruct (ensure_dists features (self0, create_context))
    as [[s1 c1] [[]|e]] eqn:Hens; [|done].
  destruct (ensure_dists_Ok _ _ _ _ _ Hens) as (-> & Hi1 & Ho1).
  destruct (match _features_order s1 with
            | [] => Ok features
            | _ => kjt_permute features (_features_order s1) end)
    as [f'|e] eqn:Hperm; [|done].
  destruct (distribute s1 f' (s1, create_context)) as [[s2 c2] [dist_input|e]] eqn:Hdist;
    [|done].
  pose proof (distribute_self s1 f' s1 create_context) as Hself.
  rewrite Hdist in Hself. cbn in Hself. subst s2.
  intros [= <- Hres].
  rewrite (ensure_dists_initialized _ _ _ Hi1 Ho1), Hperm, Hdist.
  by rewrite Hres.
Qed.

End routing.

(** ** The fused parameters [shard] passes on *)

Section sharder_facts.
Context {E : Type} `{!Backend E}.
Context
  (FLAG TBE ATTR : string)
  (getattr : QuantEmbeddingCollection → string → option py_value)
  (output_sparse_type : QuantEmbeddingCollection → py_value)
  (as_fused_params : gmap string py_value → FusedParams).

Lemma uses_own_dict_false_lookup self k :
  uses_own_dict self = false →
  (if uses_own_dict self then default ∅ (sharder_fused_params self) else ∅) !! k
  = sharder_fused_params self ≫= (.!! k).
Proof.
  intros Hown. rewrite Hown, lookup_empty.
  unfold uses_own_dict in Hown. destruct (sharder_fused_params self) as [d|]; [|done].
  apply bool_decide_eq_false in Hown. cbn.
  destruct (decide (d = ∅)) as [->|]; [by rewrite lookup_empty|done].
Qed.

(** The dictionary [shard] starts from has the entries of the sharder's
    own dictionary, whether that one is in use or replaced by a new empty
    one. *)
Lemma start_dict_lookup self k :
  (if uses_own_dict self then default ∅ (sharder_fused_params self) else ∅) !! k
  = sharder_fused_params self ≫= (.!! k).
Proof.
  destruct (uses_own_dict self) eqn:Hown;
    [|by rewrite <- uses_own_dict_false_lookup, Hown].
  unfold uses_own_dict in Hown. by destruct (sharder_fused_params self).
Qed.

Lemma resolved_flag self module :
  FLAG ≠ "output_dtype" →
  (shard_fused_params FLAG TBE ATTR getattr output_sparse_type) self module !! FLAG
  = Some (default (default (PyBool false) (getattr module ATTR))
                  (sharder_fused_params self ≫= (.!! FLAG))).
Proof.
  intros Hne. unfold shard_fused_params.
  set (d0 := if uses_own_dict self then _ else _).
  pose proof (start_dict_lookup self FLAG) as H0. fold d0 in H0.
  set (d1 := <["output_dtype" := output_sparse_type module]> d0).
  assert (d1 !! FLAG = sharder_fused_params self ≫= (.!! FLAG)) as H1
    by (unfold d1; by rewrite lookup_insert_ne).
  set (d2 := match d1 !! FLAG with None => _ | Some _ => d1 end).
  assert (d2 !! FLAG
          = Some (default (default (PyBool false) (getattr module ATTR))
                          (sharder_fused_params self ≫= (.!! FLAG)))) as H2.
  { unfold d2. destruct (d1 !! FLAG) as [v|] eqn:Hd1.
    - by rewrite Hd1, <- H1.
    - by rewrite lookup_insert_eq, <- H1. }
  destruct (d2 !! TBE) as [v|] eqn:Htbe; [done|].
  rewrite lookup_insert_ne; [done|]. intros ->. by rewrite H2 in Htbe.
Qed.

Lemma resolved_output_dtype self module :
  (shard_fused_params FLAG TBE ATTR getattr output_sparse_type) self module !! "output_dtype" = Some (output_sparse_type module).
Proof.
  unfold shard_fused_params.
  set (d1 := <["output_dtype" := output_sparse_type module]> _).
  assert (d1 !! "output_dtype" = Some (output_sparse_type module)) as H1
    by apply lookup_insert_eq.
  set (d2 := match d1 !! FLAG with None => _ | Some _ => d1 end).
  assert (d2 !! "output_dtype" = Some (output_sparse_type module)) as H2.
  { unfold d2. destruct (d1 !! FLAG) eqn:Hf; [done|].
    rewrite lookup_insert_ne; [done|]. intros ->. by rewrite H1 in Hf. }
  destruct (d2 !! TBE) eqn:Ht; [done|].
  rewrite lookup_insert_ne; [done|]. intros ->. by rewrite H2 in Ht.
Qed.

(** X10. The split scale/bias flag [shard] passes to the constructor: a
    value the sharder's own fused parameters carry is passed on unchanged,
    and only when they carry none is the module's attribute used, [False]
    when the module has no such attribute.  The output dtype entry is
    always rewritten from the module. *)
Theorem shard_resolves_split_scale_bias
    (self : QuantEmbeddingCollectionSharder)
    (module : QuantEmbeddingCollection) :
  FLAG ≠ "output_dtype" →
  (∀ d v, sharder_fused_params self = Some d → d !! FLAG = Some v →
     (shard_fused_params FLAG TBE ATTR getattr output_sparse_type) self module !! FLAG = Some v) ∧
  ((∀ d, sharder_fused_params self = Some d → d !! FLAG = None) →
     (shard_fused_params FLAG TBE ATTR getattr output_sparse_type) self module !! FLAG
     = Some (default (PyBool false) (getattr module ATTR))) ∧
  (shard_fused_params FLAG TBE ATTR getattr output_sparse_type) self module !! "output_dtype" = Some (output_sparse_type module).
Proof.
  intros Hne. split_and!.
  - intros d v Hd Hv. by rewrite resolved_flag, Hd; cbn; rewrite ?Hv.
  - intros Hnone. rewrite resolved_flag by done.
    destruct (sharder_fused_params self) as [d|]; [|done].
    cbn. by rewrite (Hnone d).
  - apply resolved_output_dtype.
Qed.

(** X11. [shard] writes into the sharder's own dictionary when that is a
    non-empty one, so a flag it filled in from one module stays for the
    next: with own fused parameters that carry no split scale/bias flag,
    the flag passed for a later module is the attribute of the module
    sharded first when the own dictionary was non-empty, and the later
    module's own attribute otherwise. *)
Theorem shard_default_sticks
    (self : QuantEmbeddingCollectionSharder)
    (first later : QuantEmbeddingCollection)
    (params : list (string * ParameterSharding)) :
  FLAG ≠ "output_dtype" →
  (∀ d, sharder_fused_params self = Some d → d !! FLAG = None) →
  (shard_fused_params FLAG TBE ATTR getattr output_sparse_type)
    (shard FLAG TBE ATTR getattr output_sparse_type as_fused_params first params
           self).1
    later !! FLAG
  = Some (default (PyBool false)
            (getattr (if uses_own_dict self then first else later) ATTR)).
Proof.
  intros Hne Hnone. unfold shard. cbn [fst].
  destruct (uses_own_dict self) eqn:Hown.
  - rewrite resolved_flag by done. cbn.
    rewrite resolved_flag by done. cbn.
    destruct (sharder_fused_params self) as [d|]; [|done].
    cbn. by rewrite (Hnone d).
  - rewrite resolved_flag by done.
    destruct (sharder_fused_params self) as [d|]; [|done].
    cbn. by rewrite (Hnone d).
Qed.

End sharder_facts.

(** ** Merging the strategies' results *)

Section merging.
Context {E : Type}.

Lemma output_jt_loop_merges need_indices perm tensors :
  ∀ (embs : list (list (list (list E)))) feats names idxs fbids jt_dict r,
    output_jt_loop embs feats names idxs fbids need_indices perm tensors jt_dict
      = Ok r →
    ∃ ds : list (gmap string (JaggedTensor E)),
      (∀ j d, ds !! j = Some d →
         ∃ emb ft n idx fb unb,
           embs !! j = Some emb ∧ feats !! j = Some ft ∧ names !! j = Some n ∧
           idxs !! j = Some idx ∧ fbids !! j = Some fb ∧
           (if decide (idx ≠ (-1)%Z)
            then Some <$> py_getitem tensors idx else Ok None) = Ok unb ∧
           _construct_jagged_tensors emb ft n fb need_indices unb perm = Ok d) ∧
      length ds
      = length embs `min` (length feats `min` (length names `min`
                             (length idxs `min` length fbids))) ∧
      (∀ key, (∀ j d, ds !! j = Some d → d !! key = None) →
              r !! key = jt_dict !! key) ∧
      (∀ key j d, ds !! j = Some d → is_Some (d !! key) →
         (∀ j' d', j < j' → ds !! j' = Some d' → d' !! key = None) →
         r !! key = d !! key).
Proof.
  induction embs as [|emb embs IH];
    intros [|ft feats] [|n names] [|idx idxs] [|fb fbids] jt_dict r;
    cbn [output_jt_loop];
    try (intros [= <-]; exists []; split_and!; [by intros j d ?|done|done|by intros key j d ?]).
  intros (unb & Hunb & (d0 & Hd0 & Hrest)%bind_inv)%bind_inv.
  destruct (IH _ _ _ _ _ _ Hrest) as (ds & Hds & Hlen & Hnone & Hlast).
  exists (d0 :: ds). split_and!.
  - intros [|j] d; cbn.
    + intros [= <-]. by exists emb, ft, n, idx, fb, unb.
    + apply Hds.
  - cbn. lia.
  - intros key Hkey. rewrite Hnone.
    + apply lookup_union_r. by apply (Hkey 0 d0).
    + intros j d Hj. by apply (Hkey (S j) d).
  - intros key [|j] d; cbn.
    + intros [= <-] Hsome Hlater. rewrite Hnone.
      * by apply lookup_union_l'.
      * intros j d Hj. apply (Hlater (S j) d); [lia|done].
    + intros Hj Hsome Hlater. apply (Hlast key j d Hj Hsome).
      intros j' d' Hlt Hj'. apply (Hlater (S j') d'); [lia|done].
Qed.

(** X12. How [output_jt_dict] merges: it reconstructs one dictionary per
    entry of the zip of its five lists and updates the result with each in
    turn; so a key that several strategies produce keeps the entry of the
    last of them, without any error, and a key that none produces is
    absent. *)
Theorem output_jt_dict_later_strategy_wins
    (emb_per_sharding : list (list (list (list E))))
    (features_per_sharding : list (list (KeyedJaggedTensor E)))
    (embedding_names_per_rank_per_sharding : list (list (list string)))
    (need_indices : bool)
    (features_before_input_dist_per_sharding : list (KeyedJaggedTensor E))
    (features_to_permute_indices : gmap string (list Z))
    (unbucketize_tensors : list (list Z))
    (unbucketize_tensor_idxs_per_sharding : list Z)
    (jt_dict : gmap string (JaggedTensor E)) :
  output_jt_dict emb_per_sharding features_per_sharding
    embedding_names_per_rank_per_sharding need_indices
    features_before_input_dist_per_sharding features_to_permute_indices
    unbucketize_tensors unbucketize_tensor_idxs_per_sharding = Ok jt_dict →
  ∃ ds : list (gmap string (JaggedTensor E)),
    (∀ j d, ds !! j = Some d →
       ∃ emb ft n idx fb unb,
         emb_per_sharding !! j = Some emb ∧
         features_per_sharding !! j = Some ft ∧
         embedding_names_per_rank_per_sharding !! j = Some n ∧
         unbucketize_tensor_idxs_per_sharding !! j = Some idx ∧
         features_before_input_dist_per_sharding !! j = Some fb ∧
         (if decide (idx ≠ (-1)%Z)
          then Some <$> py_getitem unbucketize_tensors idx else Ok None)
           = Ok unb ∧
         _construct_jagged_tensors emb ft n fb need_indices unb
           features_to_permute_indices = Ok d) ∧
    length ds
    = length emb_per_sharding
        `min` (length features_per_sharding
        `min` (length embedding_names_per_rank_per_sharding
        `min` (length unbucketize_tensor_idxs_per_sharding
        `min` length features_before_input_dist_per_sharding))) ∧
    (∀ key, (∀ j d, ds !! j = Some d → d !! key = None) →
            jt_dict !! key = None) ∧
    (∀ key j d, ds !! j = Some d → is_Some (d !! key) →
       (∀ j' d', j < j' → ds !! j' = Some d' → d' !! key = None) →
       jt_dict !! key = d !! key).
Proof.
  unfold output_jt_dict.
  intros (ds & Hds & Hlen & Hnone & Hlast)%output_jt_loop_merges.
  exists ds. split_and!; [done|done| |done].
  intros key Hkey. by rewrite Hnone.
Qed.

End merging.

(** ** Table-wise rows and reused contexts *)

Section table_wise_rows.
Context {E : Type}.
Implicit Types (f : KeyedJaggedTensor E) (ret : gmap string (JaggedTensor E)).

(** One destination with distinct keys: every key gets its segment of the
    destination's raw tensor, whose rows the segments use up; other keys
    keep their entries. *)
Lemma tw_destination_rows embeddings features need_indices ret i ret' :
  tw_destination embeddings features need_indices ret i = Ok ret' →
  ∃ emb fi,
    embeddings !! i = Some emb ∧ features !! i = Some fi ∧
    sum_list (length_per_key fi) = length emb ∧
    (NoDup (keys fi) →
     ∀ k key, keys fi !! k = Some key →
       ∃ jt, ret' !! key = Some jt ∧
             segments emb (length_per_key fi) !! k = Some (jt_values jt)) ∧
    (∀ key, key ∉ keys fi → ret' !! key = ret !! key).
Proof.
  unfold tw_destination.
  intros (emb & Hemb & (fi & Hfi & (ll & _ & (el & Hel & Hrun)%bind_inv)%bind_inv)%bind_inv)%bind_inv.
  apply torch_split_Ok in Hel as [Hsum ->].
  apply getitem_Ok in Hemb, Hfi.
  exists emb, fi. split_and!; [done..| |].
  - intros Hnd k key Hk. destruct need_indices.
    + apply bind_inv in Hrun as (vl & _ & Hrun).
      destruct (assign_keys_NoDup _ _ _ _ Hnd Hrun k key Hk)
        as (jt & (l & _ & (v & Hv & (w & _ & [= <-])%bind_inv)%bind_inv)%bind_inv & ->).
      eexists. split; [done|]. by apply getitem_Ok in Hv.
    + destruct (assign_keys_NoDup _ _ _ _ Hnd Hrun k key Hk)
        as (jt & (l & _ & (v & Hv & [= <-])%bind_inv)%bind_inv & ->).
      eexists. split; [done|]. by apply getitem_Ok in Hv.
  - intros key Hkey. destruct need_indices.
    + apply bind_inv in Hrun as (vl & _ & Hrun).
      unfold assign_keys, enumerate in Hrun.
      apply (assign_other _ _ key) in Hrun; [done|].
      by rewrite snd_enumerate_from.
    + unfold assign_keys, enumerate in Hrun.
      apply (assign_other _ _ key) in Hrun; [done|].
      by rewrite snd_enumerate_from.
Qed.

Lemma tw_loop_rows embeddings features need_indices : ∀ n a ret ret',
  for_each (tw_destination embeddings features need_indices) (seq a n) ret
    = Ok ret' →
  NoDup (concat (keys <$> take n (drop a features))) →
  (∀ i emb fi, a ≤ i < a + n →
     embeddings !! i = Some emb → features !! i = Some fi →
     sum_list (length_per_key fi) = length emb ∧
     ∀ k key, keys fi !! k = Some key →
       ∃ jt, ret' !! key = Some jt ∧
             segments emb (length_per_key fi) !! k = Some (jt_values jt)) ∧
  (∀ key, key ∉ concat (keys <$> take n (drop a features)) →
          ret' !! key = ret !! key).
Proof.
  induction n as [|n IH]; intros a ret ret'; cbn [seq for_each].
  - intros [= <-] _. split; [intros; lia|done].
  - intros (ret1 & Hstep & Hrest)%bind_inv Hnd.
    apply tw_destination_rows in Hstep
      as (emb0 & f0 & Hemb0 & Hf0 & Hsum0 & Hkeys0 & Hother0).
    rewrite (drop_S _ _ _ Hf0) in Hnd |- *. cbn in Hnd |- *.
    apply NoDup_app in Hnd as (Hnd0 & Hdisj & Hndrest).
    destruct (IH _ _ _ Hrest Hndrest) as [Hin Hother].
    split.
    + intros i emb fi Hi Hemb Hfi.
      destruct (decide (i = a)) as [->|Hne].
      * assert (emb = emb0) as -> by congruence.
        assert (fi = f0) as -> by congruence.
        split; [done|]. intros k key Hk.
        destruct (Hkeys0 Hnd0 k key Hk) as (jt & Hjt & Hseg).
        exists jt. split; [|done]. rewrite Hother; [done|].
        apply Hdisj. by eapply list_elem_of_lookup_2.
      * apply (Hin i emb fi); [lia|done..].
    + intros key Hkey. apply not_elem_of_app in Hkey as [Hk0 Hkrest].
      rewrite (Hother key Hkrest). by apply Hother0.
Qed.

(** X14. A successful table-wise reconstruction loses no row: when the
    keys of the destinations' feature collections are all distinct, the
    values stored for the keys of destination [i], laid end to end in key
    order, are that destination's raw tensor. *)
Theorem tw_conserves_rows
    (embeddings : list (list (list E))) (features : list (KeyedJaggedTensor E))
    (need_indices : bool) (ret : gmap string (JaggedTensor E)) :
  _construct_jagged_tensors_tw embeddings features need_indices = Ok ret →
  NoDup (concat (keys <$> take (length embeddings) features)) →
  ∀ i emb fi,
    embeddings !! i = Some emb → features !! i = Some fi →
    concat ((λ key, default [] (jt_values <$> ret !! key)) <$> keys fi) = emb.
Proof.
  unfold _construct_jagged_tensors_tw. intros Hrun Hnd i emb fi Hemb Hfi.
  destruct (tw_loop_rows _ _ _ _ _ _ _ Hrun Hnd) as [Hin _].
  destruct (Hin i emb fi) as [Hsum Hkeys]; [|done..|].
  { apply lookup_lt_Some in Hemb. lia. }
  etransitivity; [|exact (concat_segments _ emb Hsum)]. f_equal.
  apply list_eq. intros k. rewrite list_lookup_fmap.
  destruct (keys fi !! k) as [key|] eqn:Hk; cbn.
  - destruct (Hkeys k key Hk) as (jt & -> & Hseg). by rewrite Hseg.
  - symmetry. apply lookup_ge_None.
    rewrite segments_length, length_per_key_length. by apply lookup_ge_None.
Qed.

End table_wise_rows.

Section reused_context.
Context {E : Type} `{!Backend E}.
Implicit Types (s self : ShardedQuantEmbeddingCollection)
               (c ctx : EmbeddingCollectionContext E)
               (f : KeyedJaggedTensor E).

(** A call that returns appends one sharding context per input distributor
    and removes none. *)
Lemma input_dist_appends f s c s' c' r :
  input_dist f (s, c) = ((s', c'), Ok r) →
  ∃ new,
    sharding_contexts c' = sharding_contexts c ++ new ∧
    length new = length (_input_dists s') ∧
    _has_uninitialized_input_dist s' = false ∧
    _has_uninitialized_output_dist s' = false.
Proof.
  rewrite input_dist_unfold.
  destruct (ensure_dists f (s, c)) as [[s1 c1] [[]|e]] eqn:Hens; [|done].
  destruct (ensure_dists_Ok _ _ _ _ _ Hens) as (-> & Hi1 & Ho1).
  destruct (match _features_order s1 with
            | [] => Ok f
            | _ => kjt_permute f (_features_order s1)
            end) as [whole|]; [|done].
  unfold distribute. rewrite lift_bind.
  destruct (kjt_split whole (_feature_splits s1)) as [fbs|]; [|done].
  intros (new & -> & Hc' & _ & Hlen & _)%distribute_loop_Ok.
  exists new. by rewrite length_seq in Hlen.
Qed.

Lemma output_dist_loop_surplus_contexts (output_dists : list OutputDist)
    output (ctxs surplus : list (InferSequenceShardingContext E)) acc :
  length output_dists ≤ length ctxs →
  output_dist_loop output_dists output (ctxs ++ surplus) acc
  = output_dist_loop output_dists output ctxs acc.
Proof.
  intros Hlen.
  rewrite (output_dist_loop_take (length ctxs) _ _ (ctxs ++ surplus))
    by (rewrite length_app; lia).
  rewrite (output_dist_loop_take (length ctxs) _ _ ctxs) by lia.
  by rewrite take_app_length, firstn_all.
Qed.

(** X15. Contexts are only ever appended to.  When a context that has
    already been through [input_dist] on a constructed module is passed to
    [input_dist] again, the sharding contexts of the second batch land
    behind those of the first, and [output_dist], which pairs the
    strategies with the first entries, reconstructs from the routing of the
    first batch: the second batch's contexts play no part. *)
Theorem reused_context_keeps_first_batch
    (module : QuantEmbeddingCollection)
    (table_name_to_parameter_sharding : list (string * ParameterSharding))
    (fused_params : option FusedParams)
    (self0 self1 self2 : ShardedQuantEmbeddingCollection)
    (ctx1 ctx2 : EmbeddingCollectionContext E)
    (first second : KeyedJaggedTensor E)
    (r1 r2 : list (list (KeyedJaggedTensor E))) :
  __init__ module table_name_to_parameter_sharding fused_params = Ok self0 →
  input_dist first (self0, create_context) = ((self1, ctx1), Ok r1) →
  input_dist second (self1, ctx1) = ((self2, ctx2), Ok r2) →
  self2 = self1 ∧
  length (sharding_contexts ctx2) = 2 * length (sharding_contexts ctx1) ∧
  ∀ output, output_dist self2 ctx2 output = output_dist self1 ctx1 output.
Proof.
  intros Hinit Hrun1 Hrun2.
  destruct (init_fresh _ _ _ _ Hinit) as (Hi & Ho & Hin & Hout).
  destruct (input_dist_appends _ _ _ _ _ _ Hrun1) as (new1 & Hc1 & Hlen1 & Hi1 & Ho1).
  destruct (input_dist_appends _ _ _ _ _ _ Hrun2) as (new2 & Hc2 & Hlen2 & _).
  assert (self2 = self1) as ->.
  { pose proof (input_dist_initialized self1 ctx1 second Hi1 Ho1) as Hs.
    by rewrite Hrun2 in Hs. }
  cbn in Hc1. split; [done|].
  assert (length (_output_dists self1) = length (_input_dists self1)) as Hsame.
  { rewrite input_dist_unfold in Hrun1.
    destruct (map_result (py_index (keys first))
                (concat (feature_names <$> (_sharding_type_to_sharding self0).*2)))
      as [order|e] eqn:Hidx.
    - destruct (ensure_dists_first self0 create_context first order Hi Hidx)
        as (s1 & Hens & _ & _ & _ & _ & _ & Hid & Hod).
      rewrite Hens in Hrun1.
      assert (self1 = s1) as ->.
      { destruct (match _features_order s1 with
                  | [] => Ok first
                  | _ => kjt_permute first (_features_order s1) end) as [f'|];
          [|by injection Hrun1].
        pose proof (distribute_self s1 f' s1 create_context) as Hself.
        by rewrite Hrun1 in Hself. }
      rewrite Hid, Hod, Ho, Hin, Hout. cbn. by rewrite !length_fmap.
    - destruct (ensure_dists_Raise self0 create_context first e Hi Hidx)
        as [s1 Hens].
      by rewrite Hens in Hrun1. }
  split.
  - rewrite Hc2, Hc1, length_app. lia.
  - intros output. unfold output_dist. rewrite Hc2.
    rewrite output_dist_loop_surplus_contexts; [done|].
    rewrite Hc1, Hsame. lia.
Qed.

End reused_context.

(** ** The further properties at concrete inputs *)

Section further_witnesses.
Import Demo Cases.

Lemma compute_regroups_lookup_outputs_witness :
  ∃ self ctx dist_input ret,
    first_pass "table_wise" "row_wise" batch = Some (self, ctx, dist_input) ∧
    compute self ctx dist_input = Ok ret ∧
    length ret = length (_lookups self) `min` length dist_input ∧
    ∀ i views, ret !! i = Some views →
      ∃ lookup fs outs,
        _lookups self !! i = Some lookup ∧ dist_input !! i = Some fs ∧
        lookup_forward (lookup_sharding lookup) (lookup_fused_params lookup) fs
          = Ok outs ∧
        Forall2 (λ o v, concat v = o ∧
                        Forall (λ r, length r = _embedding_dim self) v)
                outs views.
Proof.
  eexists _, _, _, _.
  split; [vm_compute; reflexivity|].
  split; [vm_compute; reflexivity|].
  eapply (@compute_regroups_lookup_outputs Z backend _ create_context).
  vm_compute; reflexivity.
Defined.

Lemma output_dists_created_once_witness :
  ∃ self0,
    __init__ module (plan "table_wise" "row_wise") (Some true) = Ok self0 ∧
    ∃ self1,
      copy self0 = (self1, Ok tt) ∧
      _output_dists self1
      = create_output_dist <$> (_sharding_type_to_sharding self0).*2 ∧
      _input_dists self1 = [] ∧
      _has_uninitialized_input_dist self1 = true ∧
      copy self1 = (self1, Ok tt) ∧
      ∀ f c self2 c2 r,
        input_dist f (self1, c) = ((self2, c2), Ok r) →
        _output_dists self2
        = create_output_dist <$> (_sharding_type_to_sharding self0).*2 ∧
        _input_dists self2
        = create_input_dist <$> (_sharding_type_to_sharding self0).*2 ∧
        copy self2 = (self2, Ok tt).
Proof.
  eexists. split; [vm_compute; reflexivity|].
  eapply (@output_dists_created_once Z backend module
            (plan "table_wise" "row_wise") (Some true)).
  vm_compute; reflexivity.
Defined.

Lemma missing_feature_half_initialises_witness :
  ∃ self0,
    __init__ module (plan "table_wise" "row_wise") (Some true) = Ok self0 ∧
    ("table_1" : string)
      ∈ concat (feature_names <$> (_sharding_type_to_sharding self0).*2) ∧
    ("table_1" : string) ∉ keys short_batch ∧
    ∃ self1,
      input_dist short_batch (self0, create_context)
        = ((self1, create_context), Raise ValueError) ∧
      _has_uninitialized_input_dist self1 = true ∧
      _input_dists self1
      = create_input_dist <$> (_sharding_type_to_sharding self0).*2 ∧
      over_provisioned self1.
Proof.
  eexists. split; [vm_compute; reflexivity|].
  assert (("table_1" : string) ∈ (["table_0"; "table_1"] : list string)) as H1
    by (right; left).
  assert (("table_1" : string) ∉ keys short_batch) as H2
    by (intros [?|?%elem_of_nil]%elem_of_cons; done).
  split; [exact H1|]. split; [exact H2|].
  eapply (@missing_feature_half_initialises Z backend module
            (plan "table_wise" "row_wise") (Some true) _ create_context
            short_batch "table_1");
    [vm_compute; reflexivity|exact H1|exact H2].
Defined.

Lemma over_provisioned_never_recovers_witness :
  ∃ self0 self,
    __init__ module (plan "table_wise" "row_wise") (Some true) = Ok self0 ∧
    (input_dist short_batch (self0, create_context)).1.1 = self ∧
    over_provisioned self ∧
    ∃ self' ctx' e,
      input_dist batch (self, create_context) = ((self', ctx'), Raise e) ∧
      over_provisioned self'.
Proof.
  eexists _, _.
  split; [vm_compute; reflexivity|].
  split; [vm_compute; reflexivity|].
  match goal with
  | |- over_provisioned ?s ∧ _ =>
      assert (over_provisioned s) as Hover by (by vm_compute)
  end.
  split; [exact Hover|].
  exact (over_provisioned_never_recovers _ create_context batch Hover).
Defined.

Lemma rw_conserves_rows_witness :
  ∃ ret,
    _construct_jagged_tensors_rw rw_embeddings rw_features true rw_unbucketize
      = Ok ret ∧
    NoDup (keys rw_features) ∧
    dom ret = list_to_set (keys rw_features) ∧
    ∃ unbucketized_embs,
      index_select (concat rw_embeddings) rw_unbucketize = Ok unbucketized_embs ∧
      concat ((λ key, default [] (jt_values <$> ret !! key)) <$> keys rw_features)
      = unbucketized_embs.
Proof.
  eexists. split; [vm_compute; reflexivity|].
  assert (NoDup (keys rw_features)) as Hnd
    by (apply (bool_decide_unpack _); vm_compute; exact I).
  split; [exact Hnd|].
  eapply (rw_conserves_rows rw_embeddings rw_features true rw_unbucketize);
    [vm_compute; reflexivity|exact Hnd].
Defined.

Lemma tw_keys_and_bounds_witness :
  ∃ ret,
    _construct_jagged_tensors_tw tw_embeddings tw_features true = Ok ret ∧
    length tw_embeddings ≤ length tw_features ∧
    dom ret
    = list_to_set (concat (keys <$> take (length tw_embeddings) tw_features)) ∧
    ∀ surplus,
      _construct_jagged_tensors_tw tw_embeddings (tw_features ++ surplus) true
      = Ok ret.
Proof.
  eexists. split; [vm_compute; reflexivity|].
  eapply (tw_keys_and_bounds tw_embeddings tw_features true).
  vm_compute; reflexivity.
Defined.

Lemma feature_order_routes_by_name_witness :
  ∃ self0 self1 ctx1 dist_input,
    __init__ module (plan "table_wise" "row_wise") (Some true) = Ok self0 ∧
    input_dist swapped_batch (self0, create_context)
      = ((self1, ctx1), Ok dist_input) ∧
    let names :=
      concat (feature_names <$> (_sharding_type_to_sharding self0).*2) in
    let order := match _features_order self1 with
                 | [] => seq 0 (length names)
                 | o => o
                 end in
    sum_list (_feature_splits self1) = length names ∧
    length order = length names ∧
    ∀ j name, names !! j = Some name →
      ∃ i, order !! j = Some i ∧ keys swapped_batch !! i = Some name ∧
           ∀ i', i' < i → keys swapped_batch !! i' ≠ Some name.
Proof.
  eexists _, _, _, _.
  split; [vm_compute; reflexivity|].
  split; [vm_compute; reflexivity|].
  eapply (@feature_order_routes_by_name Z backend module
            (plan "table_wise" "row_wise") (Some true) _ _ create_context _
            swapped_batch _);
    vm_compute; reflexivity.
Defined.

Lemma forward_repeatable_witness :
  ∃ self0 self1 jt_dict,
    __init__ module (plan "row_wise" "row_wise") (Some true) = Ok self0 ∧
    forward batch self0 = (self1, Ok jt_dict) ∧
    forward batch self1 = (self1, Ok jt_dict).
Proof.
  let v := eval vm_compute in
    (@__init__ Z backend module (plan "row_wise" "row_wise") (Some true)) in
  match v with
  | Ok ?s0 =>
      let w := eval vm_compute in (@forward Z backend batch s0) in
      match w with
      | (?s1, Ok ?jt) =>
          exists s0, s1, jt;
          assert (@forward Z backend batch s0 = (s1, Ok jt)) as Hrun
            by (vm_compute; reflexivity);
          split; [vm_compute; reflexivity|];
          split; [exact Hrun|];
          exact (forward_repeatable s0 s1 batch jt Hrun)
      end
  end.
Defined.

Lemma shard_resolves_split_scale_bias_witness :
  split_scale_bias_flag ≠ "output_dtype" ∧
  (∀ d v, sharder_fused_params flag_off_sharder = Some d →
     d !! split_scale_bias_flag = Some v →
     shard_fused_params split_scale_bias_flag register_tbe_flag
       split_scale_bias_attr module_attr (λ _, PyOther "INT8")
       flag_off_sharder module !! split_scale_bias_flag = Some v) ∧
  ((∀ d, sharder_fused_params flag_off_sharder = Some d →
      d !! split_scale_bias_flag = None) →
     shard_fused_params split_scale_bias_flag register_tbe_flag
       split_scale_bias_attr module_attr (λ _, PyOther "INT8")
       flag_off_sharder module !! split_scale_bias_flag
     = Some (default (PyBool false) (module_attr module split_scale_bias_attr))) ∧
  shard_fused_params split_scale_bias_flag register_tbe_flag
    split_scale_bias_attr module_attr (λ _, PyOther "INT8")
    flag_off_sharder module !! "output_dtype" = Some (PyOther "INT8").
Proof.
  assert (split_scale_bias_flag ≠ "output_dtype") as H by done.
  split; [exact H|].
  exact (shard_resolves_split_scale_bias split_scale_bias_flag register_tbe_flag
           split_scale_bias_attr module_attr (λ _, PyOther "INT8")
           flag_off_sharder module H).
Defined.

Lemma shard_default_sticks_witness :
  split_scale_bias_flag ≠ "output_dtype" ∧
  (∀ d, sharder_fused_params cache_sharder = Some d →
        d !! split_scale_bias_flag = None) ∧
  shard_fused_params split_scale_bias_flag register_tbe_flag
    split_scale_bias_attr module_attr (λ _, PyOther "INT8")
    (shard split_scale_bias_flag register_tbe_flag split_scale_bias_attr
       module_attr (λ _, PyOther "INT8")
       read_flag module (plan "table_wise" "row_wise") cache_sharder).1
    other_module !! split_scale_bias_flag
  = Some (default (PyBool false)
            (module_attr
               (if uses_own_dict cache_sharder then module else other_module)
               split_scale_bias_attr)).
Proof.
  assert (split_scale_bias_flag ≠ "output_dtype") as H1 by done.
  assert (∀ d, sharder_fused_params cache_sharder = Some d →
               d !! split_scale_bias_flag = None) as H2
    by (by intros d [= <-]).
  split; [exact H1|]. split; [exact H2|].
  exact (@shard_default_sticks Z backend split_scale_bias_flag register_tbe_flag
           split_scale_bias_attr module_attr (λ _, PyOther "INT8")
           read_flag cache_sharder module other_module
           (plan "table_wise" "row_wise")
           H1 H2).
Defined.

Lemma output_jt_dict_later_strategy_wins_witness :
  ∃ jt_dict,
    output_jt_dict [tw_embeddings; [raw_rows [7; 8; 9]%Z]]
      [tw_features; [select_keys batch [1]]] [[]; []] true [batch; batch] ∅
      [] [(-1)%Z; (-1)%Z] = Ok jt_dict ∧
    ∃ ds : list (gmap string (JaggedTensor Z)),
      (∀ j d, ds !! j = Some d →
         ∃ emb ft n idx fb unb,
           [tw_embeddings; [raw_rows [7; 8; 9]%Z]] !! j = Some emb ∧
           [tw_features; [select_keys batch [1]]] !! j = Some ft ∧
           ([[]; []] : list (list (list string))) !! j = Some n ∧
           [(-1)%Z; (-1)%Z] !! j = Some idx ∧
           [batch; batch] !! j = Some fb ∧
           (if decide (idx ≠ (-1)%Z)
            then Some <$> py_getitem [] idx else Ok None) = Ok unb ∧
           _construct_jagged_tensors emb ft n fb true unb ∅ = Ok d) ∧
      length ds
      = length [tw_embeddings; [raw_rows [7; 8; 9]%Z]]
          `min` (length [tw_features; [select_keys batch [1]]]
          `min` (length ([[]; []] : list (list (list string)))
          `min` (length [(-1)%Z; (-1)%Z] `min` length [batch; batch]))) ∧
      (∀ key, (∀ j d, ds !! j = Some d → d !! key = None) →
              jt_dict !! key = None) ∧
      (∀ key j d, ds !! j = Some d → is_Some (d !! key) →
         (∀ j' d', j < j' → ds !! j' = Some d' → d' !! key = None) →
         jt_dict !! key = d !! key).
Proof.
  eexists. split; [vm_compute; reflexivity|].
  eapply (output_jt_dict_later_strategy_wins
            [tw_embeddings; [raw_rows [7; 8; 9]%Z]]
            [tw_features; [select_keys batch [1]]] [[]; []] true
            [batch; batch] ∅ [] [(-1)%Z; (-1)%Z]).
  vm_compute; reflexivity.
Defined.

Lemma input_dist_records_witness :
  ∃ self0 self1 ctx1 r,
    __init__ module (plan "table_wise" "row_wise") (Some true) = Ok self0 ∧
    input_dist batch (self0, create_context) = ((self1, ctx1), Ok r) ∧
    ∃ whole fbs new,
      (match _features_order self1 with
       | [] => Ok batch
       | _ => kjt_permute batch (_features_order self1)
       end) = Ok whole ∧
      kjt_split whole (_feature_splits self1) = Ok fbs ∧
      sharding_contexts ctx1 = sharding_contexts (create_context (E:=Z)) ++ new ∧
      r = features <$> new ∧
      length new = length (_input_dists self1) ∧
      ∀ i sc, new !! i = Some sc →
        features_before_input_dist sc = whole ∧
        ∃ d fi,
          _input_dists self1 !! i = Some d ∧ fbs !! i = Some fi ∧
          input_dist_forward d fi
            = Ok (features sc, unbucketize_permute_tensor sc) ∧
          (is_Some (unbucketize_permute_tensor sc) ↔ is_rw_dist d = true).
Proof.
  let v := eval vm_compute in
    (@__init__ Z backend module (plan "table_wise" "row_wise") (Some true)) in
  match v with
  | Ok ?s0 =>
      let w := eval vm_compute in
        (@input_dist Z backend batch (s0, create_context)) in
      match w with
      | ((?s1, ?c1), Ok ?r) =>
          exists s0, s1, c1, r;
          assert (@input_dist Z backend batch (s0, create_context)
                  = ((s1, c1), Ok r)) as Hrun
            by (vm_compute; reflexivity);
          split; [vm_compute; reflexivity|];
          split; [exact Hrun|];
          exact (input_dist_records batch s0 create_context s1 c1 r Hrun)
      end
  end.
Defined.

Lemma tw_conserves_rows_witness :
  ∃ ret,
    _construct_jagged_tensors_tw tw_embeddings tw_features false = Ok ret ∧
    NoDup (concat (keys <$> take (length tw_embeddings) tw_features)) ∧
    ∀ i emb fi,
      tw_embeddings !! i = Some emb → tw_features !! i = Some fi →
      concat ((λ key, default [] (jt_values <$> ret !! key)) <$> keys fi) = emb.
Proof.
  eexists. split; [vm_compute; reflexivity|].
  assert (NoDup (concat (keys <$> take (length tw_embeddings) tw_features)))
    as Hnd by (apply (bool_decide_unpack _); vm_compute; exact I).
  split; [exact Hnd|].
  eapply (tw_conserves_rows tw_embeddings tw_features false);
    [vm_compute; reflexivity|exact Hnd].
Defined.

Lemma reused_context_keeps_first_batch_witness :
  ∃ self0 self1 self2 ctx1 ctx2 r1 r2,
    __init__ module (plan "table_wise" "table_wise") (Some true) = Ok self0 ∧
    input_dist batch (self0, create_context) = ((self1, ctx1), Ok r1) ∧
    input_dist swapped_batch (self1, ctx1) = ((self2, ctx2), Ok r2) ∧
    self2 = self1 ∧
    length (sharding_contexts ctx2) = 2 * length (sharding_contexts ctx1) ∧
    ∀ output, output_dist self2 ctx2 output = output_dist self1 ctx1 output.
Proof.
  let v := eval vm_compute in
    (@__init__ Z backend module (plan "table_wise" "table_wise") (Some true)) in
  match v with
  | Ok ?s0 =>
      let w := eval vm_compute in
        (@input_dist Z backend batch (s0, create_context)) in
      match w with
      | ((?s1, ?c1), Ok ?r1) =>
          let x := eval vm_compute in
            (@input_dist Z backend swapped_batch (s1, c1)) in
          match x with
          | ((?s2, ?c2), Ok ?r2) =>
              exists s0, s1, s2, c1, c2, r1, r2;
              assert (@__init__ Z backend module
                        (plan "table_wise" "table_wise") (Some true) = Ok s0)
                as H0 by (vm_compute; reflexivity);
              assert (@input_dist Z backend batch (s0, create_context)
                      = ((s1, c1), Ok r1)) as H1 by (vm_compute; reflexivity);
              assert (@input_dist Z backend swapped_batch (s1, c1)
                      = ((s2, c2), Ok r2)) as H2 by (vm_compute; reflexivity);
              split; [exact H0|]; split; [exact H1|]; split; [exact H2|];
              exact (reused_context_keeps_first_batch module
                       (plan "table_wise" "table_wise") (Some true)
                       s0 s1 s2 c1 c2 batch swapped_batch r1 r2 H0 H1 H2)
          end
      end
  end.
Defined.

End further_witnesses.
